(** * find-key-3rd.js: a sequential checksum verification loop

    Shallow embedding of [src/find-key-3rd.js] and the properties of its
    parser ([parseChecksumFile]), its lookup client ([submitChecksum]) and
    its control loop ([main]).

    Conventions of the model.
    - A JavaScript string is a [string]: one [ascii] per UTF-16 code unit,
      so the model covers the strings whose code units are below 256 (the
      checksum reports are ASCII).
    - A JavaScript value is a [jsval]; the values that [response.json()]
      produces are the JSON ones, numbers being IEEE-754 doubles
      ([spec_float]).
    - The effects of the program (network requests, writes to the failure
      log, console output, process exit, rejected promises) are threaded
      through an explicit state in a small state-and-completion monad. *)

From Stdlib Require Import ZArith Ascii String List Lia.
From Stdlib Require Import Floats.SpecFloat.
From stdpp Require Import base option gmap strings list.

Open Scope string_scope.
Open Scope list_scope.

(** ** JavaScript values *)

#[warnings="-register-all"]
Inductive jsval : Type :=
| JUndefined
| JNull
| JBool (b : bool)
| JNum (x : spec_float)
| JStr (s : string)
| JArr (elems : list jsval)
| JObj (props : list (string * jsval)).

Inductive js_error : Type :=
| TypeError                    (* property read on null or undefined *)
| Error (message : string).    (* new Error(message) *)

(** ToBoolean, as applied by [!response1] and by the operands of [&&]. *)
Definition to_boolean (v : jsval) : bool :=
  match v with
  | JUndefined | JNull => false
  | JBool b => b
  | JNum (S754_zero _) | JNum S754_nan => false
  | JNum _ => true
  | JStr s => negb (String.eqb s "")
  | JArr _ | JObj _ => true
  end.

(** [JSON.parse] keeps the last of several members with one name. *)
Fixpoint own_property (name : string) (props : list (string * jsval)) : option jsval :=
  match props with
  | [] => None
  | (k, v) :: rest =>
      match own_property name rest with
      | Some w => Some w
      | None => if String.eqb k name then Some v else None
      end
  end.

(** The member expression [v.key].  Reading a property of [null] or
    [undefined] throws; a primitive, an array or an object without an own
    member of that name gives [undefined] (no prototype defines [key]). *)
Definition get_key (v : jsval) : js_error + jsval :=
  match v with
  | JUndefined | JNull => inl TypeError
  | JObj props => inr (default JUndefined (own_property "key" props))
  | _ => inr JUndefined
  end.

(** [a === b] for operands taken from two different [response.json()]
    results: primitives compare by type and value, numbers as doubles; an
    array or object of one parse is never the same reference as a value of
    the other parse. *)
Definition strict_equals (a b : jsval) : bool :=
  match a, b with
  | JUndefined, JUndefined => true
  | JNull, JNull => true
  | JBool x, JBool y => Bool.eqb x y
  | JNum x, JNum y => SFeqb x y
  | JStr s, JStr t => String.eqb s t
  | _, _ => false
  end.

(** Line 73: [response1.key && response2.key && response1.key === response2.key],
    as the condition of the [if].  The members are data properties, so each
    is read once here; [&&] evaluates its right operand only when the left
    one is truthy. *)
Definition keys_match (response1 response2 : jsval) : js_error + bool :=
  match get_key response1 with
  | inl e => inl e
  | inr k1 =>
      if to_boolean k1 then
        match get_key response2 with
        | inl e => inl e
        | inr k2 => if to_boolean k2 then inr (strict_equals k1 k2) else inr false
        end
      else inr false
  end.

(** The three-way classification that lines 54, 64 and 73 of [main]
    implement for the two responses of one checksum. *)
Inductive MatchDecision : Type := TransientFailure | NoMatch | Match.

Definition decide_match (response1 response2 : jsval) : js_error + MatchDecision :=
  if negb (to_boolean response1) then inr TransientFailure
  else if negb (to_boolean response2) then inr TransientFailure
  else match keys_match response1 response2 with
       | inl e => inl e
       | inr true => inr Match
       | inr false => inr NoMatch
       end.

(** ** Strings: [split(",")] and [trim()] *)

Definition comma : ascii := ","%char.

(** The string ["\n"]. *)
Definition newline : string := String (ascii_of_nat 10) EmptyString.

(** [s.split(",")]: always at least one part. *)
Fixpoint split_comma (s : string) : list string :=
  match s with
  | EmptyString => [EmptyString]
  | String c rest =>
      if Ascii.eqb c comma then EmptyString :: split_comma rest
      else match split_comma rest with
           | p :: ps => String c p :: ps
           | [] => [String c EmptyString]
           end
  end.

(** WhiteSpace and LineTerminator code units below 256:
    TAB, LF, VT, FF, CR, SP, NBSP. *)
Definition is_white_space (c : ascii) : bool :=
  let n := nat_of_ascii c in
  (Nat.leb 9 n && Nat.leb n 13) || Nat.eqb n 32 || Nat.eqb n 160.

Fixpoint trimStart (s : string) : string :=
  match s with
  | EmptyString => EmptyString
  | String c rest => if is_white_space c then trimStart rest else s
  end.

Fixpoint trimEnd (s : string) : string :=
  match s with
  | EmptyString => EmptyString
  | String c rest =>
      match trimEnd rest with
      | EmptyString => if is_white_space c then EmptyString else String c EmptyString
      | t => String c t
      end
  end.

Definition trim (s : string) : string := trimEnd (trimStart s).

(** The ["line"] handler of [parseChecksumFile] (lines 157-163): the
    checksums that one line pushes. *)
Definition on_line (line : string) : list string :=
  let parts := split_comma line in
  if Nat.eqb (length parts) 2 && to_boolean (JStr (nth 1 parts EmptyString))
  then [trim (nth 1 parts EmptyString)]
  else [].

(** The array that [parseChecksumFile] resolves with, from the lines that
    [readline] delivers, in order. *)
Definition parse_lines (lines : list string) : list string :=
  flat_map on_line lines.

(** ** Effects *)

(** What one [fetch(API_URL, ...)] can do: reject (transport error), or
    resolve with a response whose body either parses as JSON or makes
    [response.json()] reject. *)
Inductive fetch_result : Type :=
| NetworkError
| Response (status : nat) (body : option jsval).

(** [response.ok]: a status in the range 200-299. *)
Definition response_ok (status : nat) : bool :=
  Nat.leb 200 status && Nat.leb status 299.

(** What the program prints: [console.log], [process.stdout.write],
    [console.timeEnd] and [console.error], with the interpolated values as
    arguments. *)
Inductive output : Type :=
| LogReading (reportPath : string)
| LogFailedTo (failedLogPath : string)
| LogNoChecksums
| LogFound (totalChecksums : nat)
| LogStarting
| Progress (processed total : nat)
| TimeEnd
| Newline
| LogMatchFound
| LogRule
| LogChecksum (checksum : string)
| LogResult (response1 : jsval)
| LogSearchComplete
| ErrNonOk (status : nat) (checksum : string)
| ErrNetwork (checksum : string)
| ErrMain (err : js_error).

(** The state the program acts on.  [files] is the file system (path to
    the lines [readline] delivers); [stream] is the path [failedStream] was
    created on; [requests] lists the checksum of every POST issued so far,
    oldest first; [written] lists the chunks passed to [failedStream.write];
    [ended] counts the calls of [failedStream.end()]; [processedCount] and
    [matchFound] are the two [let] variables of [main]. *)
Record state : Type := mkState {
  files : gmap string (list string);
  stream : option string;
  requests : list string;
  written : list string;
  ended : nat;
  console : list output;
  processedCount : nat;
  matchFound : bool
}.

(** How a computation completes: normally with a value, by
    [process.exit(code)], or by a thrown error (a rejected promise). *)
Inductive completion (A : Type) : Type :=
| Normal (a : A)
| Exited (code : nat)
| Thrown (e : js_error).

Arguments Normal {A} a.
Arguments Exited {A} code.
Arguments Thrown {A} e.

Definition M (A : Type) : Type := state -> completion A * state.

#[global] Instance M_ret : MRet M := fun A a st => (Normal a, st).

#[global] Instance M_bind : MBind M := fun A B f m st =>
  match m st with
  | (Normal a, st') => f a st'
  | (Exited code, st') => (Exited code, st')
  | (Thrown e, st') => (Thrown e, st')
  end.

(** [promise.catch(handler)] *)
Definition catch {A} (m : M A) (handler : js_error -> M A) : M A := fun st =>
  match m st with
  | (Thrown e, st') => handler e st'
  | r => r
  end.

Definition throw {A} (e : js_error) : M A := fun st => (Thrown e, st).

Definition process_exit {A} (code : nat) : M A := fun st => (Exited code, st).

Definition lift_pure {A} (r : js_error + A) : M A :=
  match r with
  | inl e => throw e
  | inr a => mret a
  end.

Definition print (o : output) : M unit := fun st =>
  (Normal tt,
   mkState (files st) (stream st) (requests st) (written st) (ended st)
           (console st ++ [o]) (processedCount st) (matchFound st)).

(** [failedStream.write(chunk)] *)
Definition failedStream_write (chunk : string) : M unit := fun st =>
  (Normal tt,
   mkState (files st) (stream st) (requests st) (written st ++ [chunk]) (ended st)
           (console st) (processedCount st) (matchFound st)).

(** [failedStream.end()] *)
Definition failedStream_end : M unit := fun st =>
  (Normal tt,
   mkState (files st) (stream st) (requests st) (written st) (S (ended st))
           (console st) (processedCount st) (matchFound st)).

Definition set_processedCount (n : nat) : M unit := fun st =>
  (Normal tt,
   mkState (files st) (stream st) (requests st) (written st) (ended st)
           (console st) n (matchFound st)).

Definition set_matchFound (b : bool) : M unit := fun st =>
  (Normal tt,
   mkState (files st) (stream st) (requests st) (written st) (ended st)
           (console st) (processedCount st) b).

Definition get_processedCount : M nat := fun st => (Normal (processedCount st), st).

Definition get_matchFound : M bool := fun st => (Normal (matchFound st), st).

(** [fs.createWriteStream(path, {flags: "a"})] returns the stream at once;
    the file is opened later, from the event loop.  That open can fail
    (the directory of the path does not exist, the path is a directory,
    the file may not be written): the stream then emits an error that the
    program does not handle, which ends the process with exit code 1.  The
    computations below describe the program as long as that has not
    happened. *)
Definition createWriteStream_append (path : string) : M unit := fun st =>
  (Normal tt,
   mkState (files st) (Some path) (requests st) (written st) (ended st)
           (console st) (processedCount st) (matchFound st)).

(** The file system once the pending open of the stream has been carried
    out.  [opens path] tells whether the open of [path] for appending
    succeeds.  When it does, the flag ["a"] creates the file, empty, when
    it does not exist, and an existing file keeps its contents; when it
    does not, no file is created. *)
Definition disk (opens : string -> bool) (st : state) : gmap string (list string) :=
  match stream st with
  | Some path =>
      if opens path then
        match files st !! path with
        | Some _ => files st
        | None => <[path := []]> (files st)
        end
      else files st
  | None => files st
  end.

(** [fs.existsSync(path)] *)
Definition existsSync (path : string) : M bool := fun st =>
  (Normal (bool_decide (is_Some (files st !! path))), st).

Definition read_lines (path : string) : M (list string) := fun st =>
  (Normal (default [] (files st !! path)), st).

(** The outcomes of an iteration of [for ... of]. *)
Inductive flow : Type := Continue | Break.

Fixpoint for_of {A} (body : A -> M flow) (items : list A) : M unit :=
  match items with
  | [] => mret tt
  | x :: rest =>
      f ← body x;
      match (f : flow) with
      | Break => mret tt
      | Continue => for_of body rest
      end
  end.

(** The test [!response] of lines 54 and 64. *)
Definition failed (response : jsval) : bool := negb (to_boolean response).

(** What [submitChecksum] returns and prints for one result of [fetch]. *)
Definition lookup_value (r : fetch_result) : jsval :=
  match r with
  | NetworkError => JNull
  | Response status body =>
      if response_ok status then default JNull body else JNull
  end.

Definition lookup_diagnostic (checksum : string) (r : fetch_result) : list output :=
  match r with
  | NetworkError => [ErrNetwork checksum]
  | Response status body =>
      if response_ok status then
        match body with
        | Some _ => []
        | None => [ErrNetwork checksum]
        end
      else [ErrNonOk status checksum]
  end.

(** ** The program *)

Section Program.

(** The remote service: what the request number [n] of the run (counting
    from 0), carrying [checksum], comes back with. *)
Variable net : nat -> string -> fetch_result.

(** [path.join(path.dirname(reportPath), "failed.txt")] *)
Variable failed_path : string -> string.

Definition fetch (checksum : string) : M fetch_result := fun st =>
  (Normal (net (length (requests st)) checksum),
   mkState (files st) (stream st) (requests st ++ [checksum]) (written st) (ended st)
           (console st) (processedCount st) (matchFound st)).

(** Lines 112-138. *)
Definition submitChecksum (checksum : string) : M jsval :=
  r ← fetch checksum;
  match (r : fetch_result) with
  | NetworkError => print (ErrNetwork checksum);; mret JNull
  | Response status body =>
      if negb (response_ok status) then
        print (ErrNonOk status checksum);; mret JNull
      else
        match body with
        | Some v => mret v
        | None => print (ErrNetwork checksum);; mret JNull
        end
  end.

(** Lines 100-105. *)
Definition updateProgress (processed total : nat) : M unit :=
  print (Progress processed total).

(** Lines 145-168.  (Reading what exists at the path is taken to succeed:
    directories and unreadable files are outside the model.) *)
Definition parseChecksumFile (filePath : string) : M (list string) :=
  e ← existsSync filePath;
  if negb (e : bool) then throw (Error ("File not found: " +:+ filePath))
  else
    lines ← read_lines filePath;
    mret (parse_lines lines).

(** [processedCount++; updateProgress(processedCount, totalChecksums);] *)
Definition count_processed (totalChecksums : nat) : M unit :=
  n ← get_processedCount;
  set_processedCount (S n);;
  n' ← get_processedCount;
  updateProgress n' totalChecksums.

(** The body of the loop, lines 50-88. *)
Definition loop_body (totalChecksums : nat) (checksum : string) : M flow :=
  mf ← get_matchFound;
  if (mf : bool) then mret Break
  else
    response1 ← submitChecksum checksum;
    if negb (to_boolean response1) then
      failedStream_write (checksum +:+ newline);;
      count_processed totalChecksums;;
      mret Continue
    else
      response2 ← submitChecksum checksum;
      if negb (to_boolean response2) then
        failedStream_write (checksum +:+ newline);;
        count_processed totalChecksums;;
        mret Continue
      else
        is_match ← lift_pure (keys_match response1 response2);
        if (is_match : bool) then
          set_matchFound true;;
          print TimeEnd;;
          print Newline;;
          print LogMatchFound;;
          print LogRule;;
          print (LogChecksum checksum);;
          print (LogResult response1);;
          print LogRule;;
          failedStream_end;;
          process_exit 0
        else
          count_processed totalChecksums;;
          mret Continue.

(** Lines 44-97: the verification loop and the report of exhaustion.
    ([console.time] of line 47 prints nothing.) *)
Definition verification_loop (checksums : list string) (totalChecksums : nat) : M unit :=
  set_processedCount 0;;
  set_matchFound false;;
  for_of (loop_body totalChecksums) checksums;;
  mf ← get_matchFound;
  if negb (mf : bool) then
    print TimeEnd;;
    print Newline;;
    print LogSearchComplete;;
    failedStream_end;;
    process_exit 0
  else mret tt.

(** Lines 19-98, [reportPath] being the answer to the prompt. *)
Definition main (reportPath : string) : M unit :=
  let failedLogPath := failed_path reportPath in
  createWriteStream_append failedLogPath;;
  print (LogReading reportPath);;
  print (LogFailedTo failedLogPath);;
  checksums ← parseChecksumFile reportPath;
  let totalChecksums := length checksums in
  if Nat.eqb totalChecksums 0 then
    print LogNoChecksums
  else
    print (LogFound totalChecksums);;
    print LogStarting;;
    verification_loop checksums totalChecksums.

(** Lines 186-188: [main().catch(...)]. *)
Definition run (reportPath : string) : M unit :=
  catch (main reportPath) (fun err => print (ErrMain err)).

(** The response to request number [n], when it carries [c]. *)
Definition response_at (n : nat) (c : string) : jsval := lookup_value (net n c).

(** The decision for [c] when [n] requests have been made, and the
    number of requests the iteration issues. *)
Definition decision_at (n : nat) (c : string) : js_error + MatchDecision :=
  decide_match (response_at n c) (response_at (S n) c).

Definition attempts_at (n : nat) (c : string) : nat :=
  if failed (response_at n c) then 1 else 2.


(** The decisions of a pass over [cs] that starts after [n] requests. *)
Fixpoint decisions (n : nat) (cs : list string) : list (js_error + MatchDecision) :=
  match cs with
  | [] => []
  | c :: rest => decision_at n c :: decisions (n + attempts_at n c) rest
  end.

End Program.

(** The state a run starts from, on a given file system. *)
Definition initial (fs : gmap string (list string)) : state :=
  mkState fs None [] [] 0 [] 0 false.

(** ** Observations used in the statements *)

(** Two [key] values that pass line 73: both truthy and strictly equal. *)
Definition same_truthy_primitive (k1 k2 : jsval) : Prop :=
  (exists s, s <> "" /\ k1 = JStr s /\ k2 = JStr s)
  \/ (k1 = JBool true /\ k2 = JBool true)
  \/ (exists x y, k1 = JNum x /\ k2 = JNum y /\ SFeqb x y = true
                  /\ to_boolean (JNum x) = true /\ to_boolean (JNum y) = true).

Fixpoint count_commas (s : string) : nat :=
  match s with
  | EmptyString => 0
  | String c rest => (if Ascii.eqb c comma then 1 else 0) + count_commas rest
  end.

(** The lines printed when a match is found (lines 75-81). *)
Definition match_report (checksum : string) (response1 : jsval) : list output :=
  [TimeEnd; Newline; LogMatchFound; LogRule; LogChecksum checksum;
   LogResult response1; LogRule].

(** The lines printed on exhaustion (lines 92-94). *)
Definition exhausted_report : list output :=
  [TimeEnd; Newline; LogSearchComplete].

(** The state after an iteration that goes on to the next checksum:
    [k] requests were made, [log] was written to the failure log. *)
Definition continued (st : state) (c : string) (k : nat) (log : list string)
           (diag : list output) (total : nat) : state :=
  mkState (files st) (stream st) (requests st ++ repeat c k)
          (written st ++ log) (ended st)
          (console st ++ diag ++ [Progress (S (processedCount st)) total])
          (S (processedCount st)) false.

(** The state in which the process exits on a match. *)
Definition matched (st : state) (c : string) (response1 : jsval) : state :=
  mkState (files st) (stream st) (requests st ++ [c; c])
          (written st) (S (ended st))
          (console st ++ match_report c response1)
          (processedCount st) true.

(** Outputs of an iteration that goes on: diagnostics and progress. *)
Definition quiet (o : output) : Prop :=
  match o with
  | ErrNetwork _ | ErrNonOk _ _ | Progress _ _ => True
  | _ => False
  end.

(** The state in which the loop starts (lines 44-45). *)
Definition started (st : state) : state :=
  mkState (files st) (stream st) (requests st) (written st) (ended st)
          (console st) 0 false.

(** The state in which the process exits on exhaustion. *)
Definition exhausted (st : state) : state :=
  mkState (files st) (stream st) (requests st) (written st) (S (ended st))
          (console st ++ exhausted_report) (processedCount st) (matchFound st).

(** ** Concrete services, for the examples *)

(** A service that is down: every request fails at the transport. *)
Definition net_down : nat -> string -> fetch_result :=
  fun _ _ => NetworkError.

(** A service that answers [{key: "X"}] for ["BBB"] and [{}] otherwise. *)
Definition net_key_for_BBB : nat -> string -> fetch_result :=
  fun _ c =>
    if String.eqb c "BBB" then Response 200 (Some (JObj [("key", JStr "X")]))
    else Response 200 (Some (JObj [])).

(** A service that answers the first request with the body [r1] and every
    later one with the body [r2]. *)
Definition net_answers (r1 r2 : jsval) : nat -> string -> fetch_result :=
  fun n _ =>
    match n with
    | 0 => Response 200 (Some r1)
    | S _ => Response 200 (Some r2)
    end.

(** A working directory in which every open for appending succeeds. *)
Definition opens_everywhere : string -> bool := fun _ => true.

(** The failure log next to a report in the working directory. *)
Definition failed_in_cwd : string -> string := fun _ => "failed.txt".

(** ** Further observations *)

(** A string made of whitespace only. *)
Fixpoint all_white_space (s : string) : bool :=
  match s with
  | EmptyString => true
  | String c rest => is_white_space c && all_white_space rest
  end.

(** A record of a report: [path,token]. *)
Definition report_line (record : string * string) : string :=
  fst record +:+ "," +:+ snd record.

(** The counts shown by the progress lines of a console, in order. *)
Fixpoint progress_counts (outs : list output) : list (nat * nat) :=
  match outs with
  | [] => []
  | Progress processed total :: rest => (processed, total) :: progress_counts rest
  | _ :: rest => progress_counts rest
  end.

(** * Properties *)

(** ** The match decision *)

(** [null], the failure indicator of [submitChecksum], is falsy; every
    object is truthy. *)
Lemma to_boolean_null : to_boolean JNull = false.
Proof. reflexivity. Qed.

Lemma to_boolean_object props : to_boolean (JObj props) = true.
Proof. reflexivity. Qed.

Lemma string_eqb_empty s : String.eqb s "" = false <-> s <> "".
Proof.
  destruct (String.eqb_spec s ""); split; congruence.
Qed.

Lemma truthy_equal_keys (k1 k2 : jsval) :
  to_boolean k1 = true /\ to_boolean k2 = true /\ strict_equals k1 k2 = true
  <-> same_truthy_primitive k1 k2.
Proof.
  split.
  - intros (H1 & H2 & H3).
    destruct k1, k2; simpl in H3; try discriminate.
    + destruct b, b0; simpl in *; try discriminate.
      right; left; auto.
    + right; right. exists x, x0. auto.
    + apply String.eqb_eq in H3. subst s0.
      left. exists s. repeat split.
      simpl in H1. apply Bool.negb_true_iff in H1.
      now apply string_eqb_empty.
  - intros [(s & Hs & -> & ->) | [[-> ->] | (x & y & -> & -> & He & Hx & Hy)]].
    + simpl. rewrite String.eqb_refl.
      apply string_eqb_empty in Hs. rewrite Hs. auto.
    + auto.
    + auto.
Qed.

Lemma get_key_truthy (r : jsval) :
  to_boolean r = true -> exists k, get_key r = inr k.
Proof.
  destruct r; simpl; intros H; try discriminate; eauto.
Qed.

Lemma keys_match_total (r1 r2 : jsval) :
  to_boolean r1 = true -> to_boolean r2 = true ->
  exists k1 k2, get_key r1 = inr k1 /\ get_key r2 = inr k2 /\
    keys_match r1 r2 = inr (to_boolean k1 && to_boolean k2 && strict_equals k1 k2).
Proof.
  intros H1 H2.
  destruct (get_key_truthy r1 H1) as [k1 E1].
  destruct (get_key_truthy r2 H2) as [k2 E2].
  exists k1, k2. unfold keys_match. rewrite E1, E2.
  destruct (to_boolean k1), (to_boolean k2); auto.
Qed.

Lemma decide_match_total (r1 r2 : jsval) :
  exists d, decide_match r1 r2 = inr d.
Proof.
  unfold decide_match.
  destruct (to_boolean r1) eqn:H1; simpl; eauto.
  destruct (to_boolean r2) eqn:H2; simpl; eauto.
  destruct (keys_match_total r1 r2 H1 H2) as (k1 & k2 & _ & _ & ->).
  destruct (_ && _); eauto.
Qed.

Lemma decide_match_Match (r1 r2 : jsval) :
  decide_match r1 r2 = inr Match <->
  to_boolean r1 = true /\ to_boolean r2 = true /\
  exists k1 k2, get_key r1 = inr k1 /\ get_key r2 = inr k2 /\
                same_truthy_primitive k1 k2.
Proof.
  unfold decide_match. split.
  - destruct (to_boolean r1) eqn:H1; simpl; try discriminate.
    destruct (to_boolean r2) eqn:H2; simpl; try discriminate.
    destruct (keys_match_total r1 r2 H1 H2) as (k1 & k2 & E1 & E2 & ->).
    destruct (to_boolean k1 && to_boolean k2 && strict_equals k1 k2) eqn:Hk;
      try discriminate.
    intros _. repeat split. exists k1, k2. repeat split; auto.
    apply truthy_equal_keys.
    apply andb_prop in Hk as [Hk ?]. apply andb_prop in Hk as [? ?]. auto.
  - intros (H1 & H2 & k1 & k2 & E1 & E2 & Hk).
    rewrite H1, H2. simpl.
    destruct (keys_match_total r1 r2 H1 H2) as (k1' & k2' & E1' & E2' & ->).
    rewrite E1 in E1'. rewrite E2 in E2'.
    injection E1' as <-. injection E2' as <-.
    apply truthy_equal_keys in Hk as (-> & -> & ->). reflexivity.
Qed.

(** C1, as stated, fails: two responses whose [key] is the boolean [true]
    are a Match although neither carries a string key, and the loop
    reports the match. *)
Lemma match_on_boolean_keys :
  decide_match (JObj [("key", JBool true)]) (JObj [("key", JBool true)]) = inr Match
  /\ get_key (JObj [("key", JBool true)]) = inr (JBool true)
  /\ (forall s, JBool true <> JStr s)
  /\ verification_loop
       (net_answers (JObj [("key", JBool true)]) (JObj [("key", JBool true)]))
       ["AAA"] 1 (initial ∅)
     = (Exited 0,
        mkState ∅ None ["AAA"; "AAA"] [] 1
                (match_report "AAA" (JObj [("key", JBool true)])) 0 true).
Proof.
  repeat split. intros s. discriminate.
Qed.

(** With string keys the rule is the one of the specification. *)
Lemma match_on_string_keys (r1 r2 : jsval) (s1 s2 : string) :
  to_boolean r1 = true -> to_boolean r2 = true ->
  get_key r1 = inr (JStr s1) -> get_key r2 = inr (JStr s2) ->
  (decide_match r1 r2 = inr Match <-> s1 <> "" /\ s1 = s2).
Proof.
  intros H1 H2 E1 E2. rewrite decide_match_Match. split.
  - intros (_ & _ & k1 & k2 & E1' & E2' & Hk).
    rewrite E1 in E1'. rewrite E2 in E2'.
    injection E1' as <-. injection E2' as <-.
    destruct Hk as [(s & Hs & Ha & Hb) | [[Ha _] | (x & y & Ha & _)]];
      try discriminate.
    injection Ha as ->. injection Hb as ->. auto.
  - intros [Hs <-]. repeat split; auto.
    exists (JStr s1), (JStr s1). repeat split; auto.
    left. exists s1. auto.
Qed.

(** A missing [key] on either side is NoMatch. *)
Lemma no_match_without_key (r1 r2 : jsval) :
  to_boolean r1 = true -> to_boolean r2 = true ->
  get_key r1 = inr JUndefined \/ get_key r2 = inr JUndefined ->
  decide_match r1 r2 = inr NoMatch.
Proof.
  intros H1 H2 Hk. unfold decide_match. rewrite H1, H2. simpl.
  destruct (keys_match_total r1 r2 H1 H2) as (k1 & k2 & E1 & E2 & ->).
  destruct Hk as [Hk | Hk].
  - rewrite Hk in E1. injection E1 as <-. reflexivity.
  - rewrite Hk in E2. injection E2 as <-. simpl.
    rewrite Bool.andb_false_r. reflexivity.
Qed.

(** ** The checksum source *)

Lemma split_comma_cons (s : string) : exists p ps, split_comma s = p :: ps.
Proof.
  induction s as [| c rest IH]; simpl; eauto.
  destruct (Ascii.eqb c comma); eauto.
  destruct IH as (p & ps & ->). eauto.
Qed.

Lemma length_split_comma (s : string) :
  length (split_comma s) = S (count_commas s).
Proof.
  induction s as [| c rest IH]; simpl; auto.
  destruct (Ascii.eqb c comma); simpl.
  - now rewrite IH.
  - destruct (split_comma_cons rest) as (p & ps & E).
    rewrite E in *. simpl in *. exact IH.
Qed.

Lemma split_comma_whole (p : string) :
  count_commas p = 0 -> split_comma p = [p].
Proof.
  induction p as [| c rest IH]; simpl; auto.
  destruct (Ascii.eqb c comma); simpl; try discriminate.
  intros H. now rewrite (IH H).
Qed.

Lemma split_comma_append (p0 rest : string) :
  count_commas p0 = 0 ->
  split_comma (p0 +:+ String comma rest) = p0 :: split_comma rest.
Proof.
  induction p0 as [| c p0 IH]; simpl.
  - intros _. reflexivity.
  - destruct (Ascii.eqb c comma) eqn:E; simpl; try discriminate.
    intros H. now rewrite (IH H).
Qed.

Lemma split_comma_two (p0 p1 : string) :
  count_commas p0 = 0 -> count_commas p1 = 0 ->
  split_comma (p0 +:+ "," +:+ p1) = [p0; p1].
Proof.
  intros H0 H1. change ("," +:+ p1) with (String comma p1).
  rewrite (split_comma_append _ _ H0). now rewrite (split_comma_whole _ H1).
Qed.

Lemma trim_empty : trim "" = "".
Proof. reflexivity. Qed.

Lemma on_line_two_parts (p0 p1 : string) :
  count_commas p0 = 0 -> count_commas p1 = 0 ->
  on_line (p0 +:+ "," +:+ p1) = if String.eqb p1 "" then [] else [trim p1].
Proof.
  intros H0 H1. unfold on_line. rewrite (split_comma_two _ _ H0 H1). simpl.
  now destruct (String.eqb p1 "").
Qed.

Lemma on_line_other (line : string) :
  count_commas line <> 1 -> on_line line = [].
Proof.
  intros H. unfold on_line. rewrite length_split_comma.
  destruct (count_commas line) as [| [| n]]; simpl; auto. congruence.
Qed.

Lemma parse_lines_app (l1 l2 : list string) :
  parse_lines (l1 ++ l2) = parse_lines l1 ++ parse_lines l2.
Proof.
  unfold parse_lines. induction l1 as [| x l1 IH]; simpl; auto.
  now rewrite IH, app_assoc.
Qed.

(** C4 (as amended).  The tokens come in file order, each line giving its
    own.  A line that splits on commas into exactly two parts, of which
    the second is non-empty after trimming, yields the trimmed second part,
    whether or not the first part is empty; a line with an empty second
    part, or with no comma or with two or more commas, yields no token. *)
Theorem checksum_source_rule (before after : list string) (line : string) :
  parse_lines (before ++ line :: after)
    = parse_lines before ++ on_line line ++ parse_lines after
  /\ (forall p0 p1,
        line = p0 +:+ "," +:+ p1 -> count_commas p0 = 0 -> count_commas p1 = 0 ->
        trim p1 <> "" -> on_line line = [trim p1])
  /\ (forall p0,
        line = p0 +:+ "," -> count_commas p0 = 0 -> on_line line = [])
  /\ (count_commas line <> 1 -> on_line line = []).
Proof.
  repeat split.
  - rewrite parse_lines_app. reflexivity.
  - intros p0 p1 -> H0 H1 Ht.
    rewrite (on_line_two_parts _ _ H0 H1).
    destruct (String.eqb_spec p1 ""); auto.
    subst p1. now rewrite trim_empty in Ht.
  - intros p0 -> H0.
    change (p0 +:+ ",") with (p0 +:+ "," +:+ "").
    now rewrite (on_line_two_parts p0 "" H0).
  - apply on_line_other.
Qed.

Lemma checksum_source_rule_witness :
  parse_lines ["a.txt, AAA "; "no comma"; "b.txt,BBB"] = ["AAA"; "BBB"]
  /\ on_line "a.txt, AAA " = ["AAA"].
Proof.
  destruct (checksum_source_rule [] ["no comma"; "b.txt,BBB"] "a.txt, AAA ")
    as (Hfile & Htwo & _ & _).
  split.
  - exact Hfile.
  - apply (Htwo "a.txt" " AAA ");
      [reflexivity | reflexivity | reflexivity | vm_compute; discriminate].
Defined.

(** C4, as stated, fails: a line whose first part is empty still yields
    its second part. *)
Lemma token_from_empty_first_field :
  split_comma ",abc" = [""; "abc"] /\ on_line ",abc" = ["abc"].
Proof. split; reflexivity. Qed.

(** The second part is tested before it is trimmed. *)
Example on_line_blank_second_field : on_line "a.txt, " = [""].
Proof. reflexivity. Qed.

(** ** The verification loop *)

Lemma bind_run {A B} (m : M A) (f : A -> M B) (st : state) :
  (m ≫= f) st =
  match m st with
  | (Normal a, st') => f a st'
  | (Exited code, st') => (Exited code, st')
  | (Thrown e, st') => (Thrown e, st')
  end.
Proof. reflexivity. Qed.

Lemma ret_run {A} (a : A) (st : state) : (mret a : M A) st = (Normal a, st).
Proof. reflexivity. Qed.

Ltac run_step :=
  repeat (rewrite bind_run; simpl);
  unfold get_matchFound, get_processedCount, set_processedCount, set_matchFound,
    failedStream_write, failedStream_end, print, process_exit, throw,
    updateProgress; simpl.

Section LoopProperties.

Variable net : nat -> string -> fetch_result.
Variable failed_path : string -> string.

Lemma submitChecksum_run (c : string) (st : state) :
  submitChecksum net c st =
  (Normal (response_at net (length (requests st)) c),
   mkState (files st) (stream st) (requests st ++ [c]) (written st) (ended st)
           (console st ++ lookup_diagnostic c (net (length (requests st)) c))
           (processedCount st) (matchFound st)).
Proof.
  unfold submitChecksum, response_at, fetch. rewrite bind_run. simpl.
  destruct (net (length (requests st)) c) as [| status body]; simpl.
  - reflexivity.
  - destruct (response_ok status); simpl; try reflexivity.
    destruct body; simpl; try reflexivity.
    rewrite ret_run. now rewrite app_nil_r.
Qed.

Lemma truthy_no_diagnostic (c : string) (r : fetch_result) :
  to_boolean (lookup_value r) = true -> lookup_diagnostic c r = [].
Proof.
  destruct r as [| status body]; simpl; try discriminate.
  destruct (response_ok status); simpl; try discriminate.
  destruct body; simpl; auto. discriminate.
Qed.

Lemma count_processed_run (total : nat) (st : state) :
  count_processed total st =
  (Normal tt,
   mkState (files st) (stream st) (requests st) (written st) (ended st)
           (console st ++ [Progress (S (processedCount st)) total])
           (S (processedCount st)) (matchFound st)).
Proof. reflexivity. Qed.

Lemma loop_body_first_failed (total : nat) (c : string) (st : state) :
  matchFound st = false ->
  failed (response_at net (length (requests st)) c) = true ->
  loop_body net total c st =
  (Normal Continue,
   continued st c 1 [c +:+ newline]
             (lookup_diagnostic c (net (length (requests st)) c)) total).
Proof.
  intros Hm Hf. unfold loop_body.
  rewrite bind_run. unfold get_matchFound. rewrite Hm.
  rewrite bind_run, submitChecksum_run.
  unfold failed in Hf. rewrite Hf.
  unfold continued. run_step. rewrite Hm, <- app_assoc. reflexivity.
Qed.

Lemma loop_body_second_failed (total : nat) (c : string) (st : state) :
  matchFound st = false ->
  failed (response_at net (length (requests st)) c) = false ->
  failed (response_at net (S (length (requests st))) c) = true ->
  loop_body net total c st =
  (Normal Continue,
   continued st c 2 [c +:+ newline]
             (lookup_diagnostic c (net (S (length (requests st))) c)) total).
Proof.
  intros Hm Hf1 Hf2. unfold loop_body.
  rewrite bind_run. unfold get_matchFound. rewrite Hm.
  rewrite bind_run, submitChecksum_run.
  unfold failed in Hf1, Hf2. rewrite Hf1.
  apply Bool.negb_false_iff in Hf1.
  rewrite (truthy_no_diagnostic _ _ Hf1), app_nil_r.
  rewrite bind_run, submitChecksum_run. cbn [requests].
  rewrite length_app. change (length [c]) with 1.
  rewrite Nat.add_1_r, Hf2.
  unfold continued. run_step. rewrite Hm, <- !app_assoc. reflexivity.
Qed.

Lemma loop_body_compared (total : nat) (c : string) (st : state) :
  matchFound st = false ->
  failed (response_at net (length (requests st)) c) = false ->
  failed (response_at net (S (length (requests st))) c) = false ->
  loop_body net total c st =
  match keys_match (response_at net (length (requests st)) c)
                   (response_at net (S (length (requests st))) c) with
  | inr true =>
      (Exited 0, matched st c (response_at net (length (requests st)) c))
  | inr false => (Normal Continue, continued st c 2 [] [] total)
  | inl e =>
      (Thrown e,
       mkState (files st) (stream st) (requests st ++ [c; c]) (written st)
               (ended st) (console st) (processedCount st) false)
  end.
Proof.
  intros Hm Hf1 Hf2. unfold loop_body.
  rewrite bind_run. unfold get_matchFound. rewrite Hm.
  rewrite bind_run, submitChecksum_run.
  unfold failed in Hf1, Hf2. rewrite Hf1.
  apply Bool.negb_false_iff in Hf1.
  rewrite (truthy_no_diagnostic _ _ Hf1), app_nil_r.
  rewrite bind_run, submitChecksum_run. cbn [requests].
  rewrite length_app. change (length [c]) with 1.
  rewrite Nat.add_1_r, Hf2.
  apply Bool.negb_false_iff in Hf2.
  rewrite (truthy_no_diagnostic _ _ Hf2), app_nil_r.
  rewrite bind_run.
  destruct (keys_match _ _) as [e | [|]]; simpl.
  - unfold throw. rewrite Hm, <- app_assoc. reflexivity.
  - unfold matched, match_report. run_step.
    rewrite <- !app_assoc. reflexivity.
  - unfold continued. run_step. rewrite Hm, <- !app_assoc, app_nil_r.
    reflexivity.
Qed.

Lemma decision_transient (n : nat) (c : string) :
  decision_at net n c = inr TransientFailure <->
  failed (response_at net n c) = true \/
  (failed (response_at net n c) = false /\ failed (response_at net (S n) c) = true).
Proof.
  unfold decision_at, decide_match, failed.
  destruct (to_boolean (response_at net n c)) eqn:H1; simpl.
  - destruct (to_boolean (response_at net (S n) c)) eqn:H2; simpl.
    + destruct (keys_match_total _ _ H1 H2) as (k1 & k2 & _ & _ & ->).
      destruct (_ && _); split; try discriminate;
        intros [? | [_ ?]]; discriminate.
    + split; auto.
  - split; auto.
Qed.

(** An iteration on a transient failure or a non-match goes on. *)
Lemma loop_body_continue (total : nat) (c : string) (st : state) :
  matchFound st = false ->
  decision_at net (length (requests st)) c <> inr Match ->
  exists diag,
    loop_body net total c st =
    (Normal Continue,
     continued st c (attempts_at net (length (requests st)) c)
               (if failed (response_at net (length (requests st)) c)
                   || failed (response_at net (S (length (requests st))) c)
                then [c +:+ newline] else [])
               diag total)
    /\ Forall (fun o => exists s k, o = ErrNetwork k \/ o = ErrNonOk s k) diag.
Proof.
  intros Hm Hd. unfold attempts_at.
  destruct (failed (response_at net (length (requests st)) c)) eqn:Hf1.
  - eexists. split.
    + simpl. now apply loop_body_first_failed.
    + destruct (net (length (requests st)) c) as [| status body]; simpl.
      * repeat constructor. exists 0, c. auto.
      * destruct (response_ok status); [destruct body |];
          repeat constructor; exists status, c; auto.
  - destruct (failed (response_at net (S (length (requests st))) c)) eqn:Hf2.
    + eexists. split.
      * simpl. now apply loop_body_second_failed.
      * destruct (net (S (length (requests st))) c) as [| status body]; simpl.
        -- repeat constructor. exists 0, c. auto.
        -- destruct (response_ok status); [destruct body |];
             repeat constructor; exists status, c; auto.
    + exists []. split; [| constructor].
      rewrite (loop_body_compared total c st Hm Hf1 Hf2). simpl.
      unfold decision_at, decide_match in Hd.
      unfold failed in Hf1, Hf2. rewrite Hf1, Hf2 in Hd.
      apply Bool.negb_false_iff in Hf1, Hf2.
      destruct (keys_match_total _ _ Hf1 Hf2) as (k1 & k2 & _ & _ & E).
      rewrite E in *.
      destruct (_ && _); [congruence | reflexivity].
Qed.

(** An iteration on a match exits. *)
Lemma loop_body_match (total : nat) (c : string) (st : state) :
  matchFound st = false ->
  decision_at net (length (requests st)) c = inr Match ->
  loop_body net total c st =
  (Exited 0, matched st c (response_at net (length (requests st)) c)).
Proof.
  intros Hm Hd. unfold decision_at, decide_match in Hd.
  destruct (negb (to_boolean (response_at net (length (requests st)) c))) eqn:Hf1;
    try discriminate.
  destruct (negb (to_boolean (response_at net (S (length (requests st))) c))) eqn:Hf2;
    try discriminate.
  rewrite (loop_body_compared total c st Hm Hf1 Hf2).
  destruct (keys_match _ _) as [e | [|]]; congruence.
Qed.

Lemma for_of_cons {A} (body : A -> M flow) (x : A) (rest : list A) (st : state) :
  for_of body (x :: rest) st =
  match body x st with
  | (Normal Continue, st') => for_of body rest st'
  | (Normal Break, st') => (Normal tt, st')
  | (Exited code, st') => (Exited code, st')
  | (Thrown e, st') => (Thrown e, st')
  end.
Proof.
  simpl. rewrite bind_run.
  destruct (body x st) as [[[|] | code | e] st']; reflexivity.
Qed.

Lemma continued_length_requests (st : state) c k log diag total :
  length (requests (continued st c k log diag total)) = length (requests st) + k.
Proof. simpl. now rewrite length_app, repeat_length. Qed.

(** A pass without a match runs through the whole list. *)
Lemma for_of_no_match (total : nat) (cs : list string) :
  forall st,
    matchFound st = false ->
    Forall (fun d => d <> inr Match) (decisions net (length (requests st)) cs) ->
    exists st' outs,
      for_of (loop_body net total) cs st = (Normal tt, st')
      /\ matchFound st' = false
      /\ processedCount st' = processedCount st + length cs
      /\ ended st' = ended st
      /\ files st' = files st /\ stream st' = stream st
      /\ console st' = console st ++ outs /\ Forall quiet outs
      /\ (Forall (fun d => d = inr NoMatch) (decisions net (length (requests st)) cs) ->
          written st' = written st).
Proof.
  induction cs as [| c rest IH]; intros st Hm Hd.
  - exists st, []. simpl. rewrite app_nil_r, Nat.add_0_r.
    repeat split; auto.
  - simpl in Hd. apply Forall_cons in Hd as [Hc Hrest].
    destruct (loop_body_continue total c st Hm Hc) as (diag & E & Hdiag).
    set (st1 := continued _ _ _ _ _ _) in E.
    assert (Hlen : length (requests st1)
                   = length (requests st) + attempts_at net (length (requests st)) c)
      by apply continued_length_requests.
    rewrite <- Hlen in Hrest.
    destruct (IH st1 eq_refl Hrest)
      as (st' & outs & Erun & Hm' & Hp & He & Hfs & Hs & Hc' & Hq & Hw).
    exists st', (diag ++ [Progress (S (processedCount st)) total] ++ outs).
    rewrite for_of_cons, E. repeat split; auto.
    + rewrite Hp. simpl. lia.
    + rewrite Hc'. simpl. now rewrite <- !app_assoc.
    + apply Forall_app. split.
      * eapply Forall_impl; [exact Hdiag |].
        intros o (s & k & [-> | ->]); exact I.
      * constructor; [exact I | exact Hq].
    + intros Hall. simpl in Hall. apply Forall_cons in Hall as [Hn Hall].
      rewrite <- Hlen in Hall. rewrite (Hw Hall).
      subst st1. simpl.
      destruct (failed (response_at net (length (requests st)) c)
                || failed (response_at net (S (length (requests st))) c)) eqn:Hf.
      * exfalso. apply orb_prop in Hf.
        assert (Ht : decision_at net (length (requests st)) c = inr TransientFailure).
        { apply decision_transient.
          destruct (failed (response_at net (length (requests st)) c)); auto.
          destruct Hf as [Hf | Hf]; [discriminate | auto]. }
        congruence.
      * now rewrite app_nil_r.
Qed.

(** A pass that completes has met no match, and is a prefix of any
    longer pass. *)
Lemma for_of_completed (total : nat) (pre : list string) :
  forall st st1,
    matchFound st = false ->
    for_of (loop_body net total) pre st = (Normal tt, st1) ->
    matchFound st1 = false
    /\ forall rest, for_of (loop_body net total) (pre ++ rest) st
                    = for_of (loop_body net total) rest st1.
Proof.
  induction pre as [| c pre IH]; intros st st1 Hm Hrun.
  - simpl in Hrun. rewrite ret_run in Hrun. injection Hrun as <-. auto.
  - rewrite for_of_cons in Hrun.
    destruct (decide_match_total (response_at net (length (requests st)) c)
                                 (response_at net (S (length (requests st))) c))
      as [d Hd].
    fold (decision_at net (length (requests st)) c) in Hd.
    destruct d.
    + assert (Hn : decision_at net (length (requests st)) c <> inr Match) by congruence.
      destruct (loop_body_continue total c st Hm Hn) as (diag & E & _).
      rewrite E in Hrun.
      apply IH in Hrun as [Hm1 Happ]; [| reflexivity].
      split; auto. intros rest.
      rewrite <- app_comm_cons, for_of_cons, E. apply Happ.
    + assert (Hn : decision_at net (length (requests st)) c <> inr Match) by congruence.
      destruct (loop_body_continue total c st Hm Hn) as (diag & E & _).
      rewrite E in Hrun.
      apply IH in Hrun as [Hm1 Happ]; [| reflexivity].
      split; auto. intros rest.
      rewrite <- app_comm_cons, for_of_cons, E. apply Happ.
    + rewrite (loop_body_match total c st Hm Hd) in Hrun. discriminate.
Qed.

(** Every pass either completes or exits on a match, having closed the
    failure log once. *)
Lemma for_of_ends (total : nat) (cs : list string) :
  forall st,
    matchFound st = false ->
    exists st',
      (for_of (loop_body net total) cs st = (Normal tt, st')
       /\ matchFound st' = false /\ ended st' = ended st)
      \/ (for_of (loop_body net total) cs st = (Exited 0, st')
          /\ ended st' = S (ended st)).
Proof.
  induction cs as [| c rest IH]; intros st Hm.
  - exists st. left. auto.
  - destruct (decide_match_total (response_at net (length (requests st)) c)
                                 (response_at net (S (length (requests st))) c))
      as [d Hd].
    fold (decision_at net (length (requests st)) c) in Hd.
    rewrite for_of_cons.
    destruct d.
    + assert (Hn : decision_at net (length (requests st)) c <> inr Match) by congruence.
      destruct (loop_body_continue total c st Hm Hn) as (diag & E & _).
      rewrite E. set (st1 := continued _ _ _ _ _ _).
      destruct (IH st1 eq_refl) as [st' [(E1 & M & En) | (E1 & En)]];
        exists st'; [left | right]; rewrite E1; repeat split; auto; exact En.
    + assert (Hn : decision_at net (length (requests st)) c <> inr Match) by congruence.
      destruct (loop_body_continue total c st Hm Hn) as (diag & E & _).
      rewrite E. set (st1 := continued _ _ _ _ _ _).
      destruct (IH st1 eq_refl) as [st' [(E1 & M & En) | (E1 & En)]];
        exists st'; [left | right]; rewrite E1; repeat split; auto; exact En.
    + rewrite (loop_body_match total c st Hm Hd).
      eexists. right. split; reflexivity.
Qed.

Lemma verification_loop_run (cs : list string) (total : nat) (st : state) :
  verification_loop net cs total st =
  match for_of (loop_body net total) cs (started st) with
  | (Normal _, st') =>
      if negb (matchFound st') then (Exited 0, exhausted st')
      else (Normal tt, st')
  | (Exited code, st') => (Exited code, st')
  | (Thrown e, st') => (Thrown e, st')
  end.
Proof.
  unfold verification_loop.
  rewrite bind_run. unfold set_processedCount at 1. cbn beta iota.
  rewrite bind_run. unfold set_matchFound at 1. cbn beta iota.
  cbn [files stream requests written ended console processedCount matchFound].
  fold (started st).
  rewrite bind_run.
  destruct (for_of _ cs (started st)) as [[[] | code | e] st']; try reflexivity.
  rewrite bind_run. unfold get_matchFound. cbn beta iota.
  destruct (matchFound st'); simpl; try reflexivity.
  run_step. unfold exhausted, exhausted_report.
  rewrite <- !app_assoc. reflexivity.
Qed.

(** An iteration ends as its decision says: it exits on a match, goes on
    otherwise, and throws nothing. *)
Lemma loop_body_by_decision (total : nat) (c : string) (st : state) :
  matchFound st = false ->
  match fst (loop_body net total c st) with
  | Exited 0 => decision_at net (length (requests st)) c = inr Match
  | Normal Continue =>
      decision_at net (length (requests st)) c = inr NoMatch
      \/ decision_at net (length (requests st)) c = inr TransientFailure
  | _ => False
  end.
Proof.
  intros Hm.
  destruct (decide_match_total (response_at net (length (requests st)) c)
                               (response_at net (S (length (requests st))) c))
    as [d Hd].
  fold (decision_at net (length (requests st)) c) in Hd.
  destruct d.
  - assert (Hn : decision_at net (length (requests st)) c <> inr Match) by congruence.
    destruct (loop_body_continue total c st Hm Hn) as (diag & -> & _).
    simpl. auto.
  - assert (Hn : decision_at net (length (requests st)) c <> inr Match) by congruence.
    destruct (loop_body_continue total c st Hm Hn) as (diag & -> & _).
    simpl. auto.
  - rewrite (loop_body_match total c st Hm Hd). simpl. exact Hd.
Qed.

(** C2.  When the first lookup for a checksum fails ([null], the failure
    indicator, is such a response), the iteration issues that one request
    and no second one, appends the checksum to the failure log, counts it
    as processed, and the loop goes on with the next checksum. *)
Theorem first_failure_skips_second_lookup
        (total : nat) (c : string) (rest : list string) (st : state) :
  matchFound st = false ->
  failed (response_at net (length (requests st)) c) = true ->
  exists st',
    loop_body net total c st = (Normal Continue, st')
    /\ requests st' = requests st ++ [c]
    /\ written st' = written st ++ [c +:+ newline]
    /\ processedCount st' = S (processedCount st)
    /\ ended st' = ended st
    /\ for_of (loop_body net total) (c :: rest) st
       = for_of (loop_body net total) rest st'.
Proof.
  intros Hm Hf. eexists. split.
  - now apply loop_body_first_failed.
  - repeat split. rewrite for_of_cons.
    now rewrite (loop_body_first_failed total c st Hm Hf).
Qed.

(** C3.  When the checksums before [t] have been processed without a
    match and the two responses for [t] match, the process exits at [t]:
    the last requests issued are the two for [t], whatever follows [t] in
    the list, and the report carries [t] and the first response. *)
Theorem match_ends_the_loop
        (total : nat) (pre post : list string) (t : string) (st st1 : state) :
  for_of (loop_body net total) pre (started st) = (Normal tt, st1) ->
  decision_at net (length (requests st1)) t = inr Match ->
  exists st2,
    verification_loop net (pre ++ t :: post) total st = (Exited 0, st2)
    /\ requests st2 = requests st1 ++ [t; t]
    /\ console st2
       = console st1 ++ match_report t (response_at net (length (requests st1)) t)
    /\ ended st2 = S (ended st1)
    /\ written st2 = written st1
    /\ processedCount st2 = processedCount st1.
Proof.
  intros Hpre Hd.
  destruct (for_of_completed total pre (started st) st1 eq_refl Hpre) as [Hm Happ].
  exists (matched st1 t (response_at net (length (requests st1)) t)).
  split; [| repeat split].
  rewrite verification_loop_run, Happ, for_of_cons.
  now rewrite (loop_body_match total t st1 Hm Hd).
Qed.

(** X15.  In an iteration, a checksum whose first response is falsy, or
    whose second response is falsy after a truthy first one, is appended
    to the failure log exactly once and counted as processed exactly once;
    a checksum whose two responses are truthy is not appended. *)
Theorem failure_accounting (total : nat) (c : string) (st : state) :
  matchFound st = false ->
  (failed (response_at net (length (requests st)) c) = true ->
   exists st',
     loop_body net total c st = (Normal Continue, st')
     /\ written st' = written st ++ [c +:+ newline]
     /\ processedCount st' = S (processedCount st)
     /\ requests st' = requests st ++ [c])
  /\ (failed (response_at net (length (requests st)) c) = false ->
      failed (response_at net (S (length (requests st))) c) = true ->
      exists st',
        loop_body net total c st = (Normal Continue, st')
        /\ written st' = written st ++ [c +:+ newline]
        /\ processedCount st' = S (processedCount st)
        /\ requests st' = requests st ++ [c; c])
  /\ (failed (response_at net (length (requests st)) c) = false ->
      failed (response_at net (S (length (requests st))) c) = false ->
      written (snd (loop_body net total c st)) = written st).
Proof.
  intros Hm. repeat split.
  - intros Hf. eexists. split; [now apply loop_body_first_failed |].
    repeat split.
  - intros Hf1 Hf2. eexists. split; [now apply loop_body_second_failed |].
    repeat split.
  - intros Hf1 Hf2. rewrite (loop_body_compared total c st Hm Hf1 Hf2).
    destruct (keys_match _ _) as [e | [|]]; simpl; auto.
    now rewrite app_nil_r.
Qed.

(** X16.  When no checksum of the list gives a match, the loop ends with
    the report of exhaustion and the processed count is the number of
    checksums; when moreover every decision is NoMatch (two truthy
    responses without matching keys), nothing is written to the failure
    log. *)
Theorem exhaustion_without_match (cs : list string) (st : state) :
  Forall (fun d => d <> inr Match) (decisions net (length (requests st)) cs) ->
  exists st' outs,
    verification_loop net cs (length cs) st = (Exited 0, st')
    /\ processedCount st' = length cs
    /\ console st' = console st ++ outs ++ exhausted_report
    /\ Forall quiet outs
    /\ ended st' = S (ended st)
    /\ (Forall (fun d => d = inr NoMatch) (decisions net (length (requests st)) cs) ->
        written st' = written st).
Proof.
  intros Hd.
  destruct (for_of_no_match (length cs) cs (started st) eq_refl Hd)
    as (st' & outs & Erun & Hm & Hp & He & _ & _ & Hc & Hq & Hw).
  exists (exhausted st'), outs.
  rewrite verification_loop_run, Erun, Hm. simpl.
  repeat split; auto;
    try (rewrite Hc; simpl; now rewrite <- app_assoc);
    try (simpl; now rewrite He).
Qed.


Lemma verification_loop_exits (cs : list string) (total : nat) (st : state) :
  exists st',
    verification_loop net cs total st = (Exited 0, st')
    /\ ended st' = S (ended st).
Proof.
  rewrite verification_loop_run.
  destruct (for_of_ends total cs (started st) eq_refl)
    as [st' [(E & Hm & He) | (E & He)]]; rewrite E.
  - rewrite Hm. simpl. eexists. split; [reflexivity |]. simpl. now rewrite He.
  - eexists. split; [reflexivity | exact He].
Qed.

Lemma main_run (reportPath : string) (fs : gmap string (list string)) :
  main net failed_path reportPath (initial fs) =
  let opened := [LogReading reportPath; LogFailedTo (failed_path reportPath)] in
  match fs !! reportPath with
  | None =>
      (Thrown (Error ("File not found: " +:+ reportPath)),
       mkState fs (Some (failed_path reportPath)) [] [] 0 opened 0 false)
  | Some lines =>
      match parse_lines lines with
      | [] =>
          (Normal tt,
           mkState fs (Some (failed_path reportPath)) [] [] 0
                   (opened ++ [LogNoChecksums]) 0 false)
      | cs =>
          verification_loop net cs (length cs)
            (mkState fs (Some (failed_path reportPath)) [] [] 0
                     (opened ++ [LogFound (length cs); LogStarting]) 0 false)
      end
  end.
Proof.
  unfold main, parseChecksumFile, createWriteStream_append, existsSync,
    read_lines, initial.
  run_step.
  destruct (fs !! reportPath) as [lines |] eqn:E.
  - rewrite bool_decide_true by eauto. simpl. run_step.
    rewrite ?E. simpl.
    destruct (parse_lines lines) as [| c cs]; simpl; [reflexivity |].
    run_step. reflexivity.
  - rewrite bool_decide_false by (intros [? ?]; discriminate). simpl.
    reflexivity.
Qed.

(** C7 (as amended).  When nothing exists at the report path and the
    failure log can be opened for appending, [main] fails with the error
    "File not found", which is printed to the operator; no line is parsed,
    no request is issued, nothing is written to the failure log and the
    log is not closed.  The failure log itself has been opened before the
    check: after the run it exists (empty, when it did not exist before)
    and every other file is as it was.  When the failure log cannot be
    opened, no file is created. *)
Theorem missing_input_file
        (opens : string -> bool) (reportPath : string)
        (fs : gmap string (list string)) :
  fs !! reportPath = None ->
  let failure := Error ("File not found: " +:+ reportPath) in
  let st' :=
    mkState fs (Some (failed_path reportPath)) [] [] 0
            [LogReading reportPath; LogFailedTo (failed_path reportPath);
             ErrMain failure] 0 false in
  (opens (failed_path reportPath) = true ->
   fst (main net failed_path reportPath (initial fs)) = Thrown failure
   /\ run net failed_path reportPath (initial fs) = (Normal tt, st')
   /\ disk opens st' !! failed_path reportPath
      = Some (default [] (fs !! failed_path reportPath))
   /\ (forall p, p <> failed_path reportPath -> disk opens st' !! p = fs !! p))
  /\ (opens (failed_path reportPath) = false ->
      disk opens (snd (run net failed_path reportPath (initial fs))) = fs).
Proof.
  intros Hnone failure st'. unfold run, catch.
  rewrite main_run, Hnone. simpl. split.
  - intros Hopen. repeat split.
    + unfold disk. simpl. rewrite Hopen.
      destruct (fs !! failed_path reportPath) as [old |] eqn:E; simpl.
      * exact E.
      * apply lookup_insert_eq.
    + intros p Hp. unfold disk. simpl. rewrite Hopen.
      destruct (fs !! failed_path reportPath) as [old |] eqn:E; simpl; auto.
      now apply lookup_insert_ne.
  - intros Hopen. unfold disk. simpl. now rewrite Hopen.
Qed.

(** C8 (as amended).  A run closes the failure log exactly once when it
    ends in the verification loop, by a match or by exhaustion, with
    [process.exit(0)]; that is the case exactly when the report exists and
    yields at least one checksum.  Otherwise (the fatal error for a
    missing report, or a report without checksums) the run ends without
    closing the log.  No run closes it twice. *)
Theorem failure_log_closed_by_the_loop
        (reportPath : string) (fs : gmap string (list string)) :
  let r := run net failed_path reportPath (initial fs) in
  ((fst r = Exited 0 /\ ended (snd r) = 1)
   \/ (fst r = Normal tt /\ ended (snd r) = 0))
  /\ (fst r = Exited 0 <->
      exists lines, fs !! reportPath = Some lines /\ parse_lines lines <> []).
Proof.
  unfold run, catch. rewrite main_run.
  destruct (fs !! reportPath) as [lines |] eqn:E; simpl.
  - destruct (parse_lines lines) as [| c cs] eqn:P; simpl.
    + split; [right; auto |].
      split; [discriminate |].
      intros (l & Hl & Hne). injection Hl as <-. congruence.
    + match goal with
      | |- context [verification_loop net ?l ?n ?s] =>
          destruct (verification_loop_exits l n s) as (st' & -> & He)
      end.
      simpl. split; [left; auto |].
      split; auto. intros _. exists lines. split; auto. congruence.
  - split; [right; auto |].
    split; [discriminate |].
    intros (l & Hl & _). discriminate.
Qed.

(** C10.  When the report exists and yields no checksum, the run prints
    that no checksums were found and returns: no request has been issued,
    the report of exhaustion is not printed, nothing has been written to
    the failure log and the log has not been closed. *)
Theorem no_checksums_found
        (reportPath : string) (fs : gmap string (list string)) (lines : list string) :
  fs !! reportPath = Some lines ->
  parse_lines lines = [] ->
  run net failed_path reportPath (initial fs) =
  (Normal tt,
   mkState fs (Some (failed_path reportPath)) [] [] 0
           [LogReading reportPath; LogFailedTo (failed_path reportPath);
            LogNoChecksums] 0 false).
Proof.
  intros Hfile Hparse. unfold run, catch.
  rewrite main_run, Hfile, Hparse. reflexivity.
Qed.

End LoopProperties.

(** C1 (as amended).  The decision is Match exactly when both responses
    are truthy and their [key] members are both truthy and strictly equal:
    equal non-empty strings, or both [true], or numbers equal as doubles
    and different from zero.  A missing, falsy or object-valued [key] gives
    NoMatch; the decision is never a type error.  The loop acts on that
    decision: on the responses [r1] and [r2] an iteration exits with the
    report of a match exactly on Match, and goes on otherwise. *)
Theorem match_decision_rule (r1 r2 : jsval) :
  (decide_match r1 r2 = inr Match <->
     to_boolean r1 = true /\ to_boolean r2 = true /\
     exists k1 k2, get_key r1 = inr k1 /\ get_key r2 = inr k2 /\
                   same_truthy_primitive k1 k2)
  /\ (exists d, decide_match r1 r2 = inr d)
  /\ (forall total c,
        match fst (loop_body (net_answers r1 r2) total c (initial ∅)) with
        | Exited 0 => decide_match r1 r2 = inr Match
        | Normal Continue =>
            decide_match r1 r2 = inr NoMatch
            \/ decide_match r1 r2 = inr TransientFailure
        | _ => False
        end).
Proof.
  split; [| split].
  - apply decide_match_Match.
  - apply decide_match_total.
  - intros total c.
    exact (loop_body_by_decision (net_answers r1 r2) total c (initial ∅) eq_refl).
Qed.


(** ** Concrete runs *)

Lemma first_failure_skips_second_lookup_witness :
  exists st',
    loop_body net_down 3 "AAA" (initial ∅) = (Normal Continue, st')
    /\ requests st' = ["AAA"]
    /\ written st' = ["AAA" +:+ newline]
    /\ processedCount st' = 1
    /\ ended st' = 0
    /\ for_of (loop_body net_down 3) ["AAA"; "BBB"] (initial ∅)
       = for_of (loop_body net_down 3) ["BBB"] st'.
Proof.
  exact (first_failure_skips_second_lookup net_down 3 "AAA" ["BBB"] (initial ∅)
           eq_refl eq_refl).
Defined.

Lemma match_ends_the_loop_witness :
  exists st2,
    verification_loop net_key_for_BBB ["AAA"; "BBB"; "CCC"] 3 (initial ∅)
    = (Exited 0, st2)
    /\ requests st2 = ["AAA"; "AAA"; "BBB"; "BBB"]
    /\ console st2
       = [Progress 1 3] ++ match_report "BBB" (JObj [("key", JStr "X")])
    /\ ended st2 = 1
    /\ written st2 = []
    /\ processedCount st2 = 1.
Proof.
  exact (match_ends_the_loop net_key_for_BBB 3 ["AAA"] ["CCC"] "BBB" (initial ∅)
           (snd (for_of (loop_body net_key_for_BBB 3) ["AAA"] (started (initial ∅))))
           eq_refl eq_refl).
Defined.

Lemma failure_accounting_witness :
  exists st',
    loop_body net_down 1 "AAA" (initial ∅) = (Normal Continue, st')
    /\ written st' = ["AAA" +:+ newline]
    /\ processedCount st' = 1
    /\ requests st' = ["AAA"].
Proof.
  destruct (failure_accounting net_down 1 "AAA" (initial ∅) eq_refl) as (H & _ & _).
  exact (H eq_refl).
Defined.

Lemma exhaustion_without_match_witness :
  exists st' outs,
    verification_loop net_key_for_BBB ["AAA"; "CCC"] 2 (initial ∅) = (Exited 0, st')
    /\ processedCount st' = 2
    /\ console st' = outs ++ exhausted_report
    /\ Forall quiet outs
    /\ ended st' = 1
    /\ (Forall (fun d => d = inr NoMatch)
               (decisions net_key_for_BBB 0 ["AAA"; "CCC"]) ->
        written st' = []).
Proof.
  apply (exhaustion_without_match net_key_for_BBB ["AAA"; "CCC"] (initial ∅)).
  repeat constructor; discriminate.
Defined.


Lemma missing_input_file_witness :
  fst (main net_down failed_in_cwd "missing.txt" (initial ∅))
  = Thrown (Error "File not found: missing.txt")
  /\ console (snd (run net_down failed_in_cwd "missing.txt" (initial ∅)))
     = [LogReading "missing.txt"; LogFailedTo "failed.txt";
        ErrMain (Error "File not found: missing.txt")].
Proof.
  assert (Hnone : (∅ : gmap string (list string)) !! "missing.txt" = None)
    by reflexivity.
  destruct (missing_input_file net_down failed_in_cwd opens_everywhere
              "missing.txt" ∅ Hnone) as [Hopen _].
  destruct (Hopen eq_refl) as (Hmain & Hrun & _ & _).
  split.
  - exact Hmain.
  - rewrite Hrun. reflexivity.
Defined.

(** C7, as stated, fails: a run on a missing report, in a directory
    without a failure log and in which files can be created, leaves a
    failure log behind. *)
Lemma failure_log_created_before_the_check :
  (∅ : gmap string (list string)) !! "missing.txt" = None
  /\ (∅ : gmap string (list string)) !! "failed.txt" = None
  /\ disk opens_everywhere
          (snd (run net_down failed_in_cwd "missing.txt" (initial ∅))) !! "failed.txt"
     = Some [].
Proof. repeat split. Qed.

(** C8, as stated, fails: the run that ends on the fatal error for a
    missing report does not close the failure log. *)
Lemma failure_log_open_after_fatal_error :
  fst (main net_down failed_in_cwd "missing.txt" (initial ∅))
  = Thrown (Error "File not found: missing.txt")
  /\ ended (snd (run net_down failed_in_cwd "missing.txt" (initial ∅))) = 0.
Proof. split; reflexivity. Qed.

Lemma no_checksums_found_witness :
  run net_down failed_in_cwd "report.txt"
      (initial {["report.txt" := ["no comma"; "a,b,c"; "x,"]]})
  = (Normal tt,
     mkState {["report.txt" := ["no comma"; "a,b,c"; "x,"]]} (Some "failed.txt")
             [] [] 0
             [LogReading "report.txt"; LogFailedTo "failed.txt"; LogNoChecksums]
             0 false).
Proof.
  apply (no_checksums_found net_down failed_in_cwd "report.txt"
           {["report.txt" := ["no comma"; "a,b,c"; "x,"]]}
           ["no comma"; "a,b,c"; "x,"]).
  - vm_compute. reflexivity.
  - reflexivity.
Defined.

(** C5: the code at the failing input.  The service answers the first
    request for ["AAA"] with status 200 and the body [false]: the lookup
    succeeds, [submitChecksum] prints no diagnostic and returns [false],
    not [null].  Line 54 takes the response for a failure: the checksum is
    written to the failure log and the second lookup is not made. *)
Theorem successful_lookup_logged_as_failed :
  net_answers (JBool false) (JObj []) 0 "AAA" = Response 200 (Some (JBool false))
  /\ response_ok 200 = true
  /\ submitChecksum (net_answers (JBool false) (JObj [])) "AAA" (initial ∅)
     = (Normal (JBool false), mkState ∅ None ["AAA"] [] 0 [] 0 false)
  /\ verification_loop (net_answers (JBool false) (JObj [])) ["AAA"] 1 (initial ∅)
     = (Exited 0,
        mkState ∅ None ["AAA"] ["AAA" +:+ newline] 1
                ([Progress 1 1] ++ exhausted_report) 1 false).
Proof. repeat split. Qed.

(** C6: the code at the failing input.  The service answers the two
    requests for ["AAA"] with status 200, the first with the body [{}]
    and the second with the body [0]: both lookups succeed and no key
    matches.  The run ends with the report of exhaustion and a processed
    count of 1, the number of checksums, but line 64 takes the second
    response for a failure and the checksum is written to the failure
    log. *)
Theorem non_matching_successes_logged :
  lookup_value (net_answers (JObj []) (JNum (S754_zero false)) 0 "AAA") = JObj []
  /\ lookup_value (net_answers (JObj []) (JNum (S754_zero false)) 1 "AAA")
     = JNum (S754_zero false)
  /\ lookup_diagnostic "AAA" (net_answers (JObj []) (JNum (S754_zero false)) 1 "AAA")
     = []
  /\ verification_loop (net_answers (JObj []) (JNum (S754_zero false)))
                       ["AAA"] 1 (initial ∅)
     = (Exited 0,
        mkState ∅ None ["AAA"; "AAA"] ["AAA" +:+ newline] 1
                ([Progress 1 1] ++ exhausted_report) 1 false).
Proof. repeat split. Qed.

(** ** End-to-end scenarios *)

(** A report of three records, the second of which has matching keys: the
    run stops at ["BBB"], ["CCC"] is never submitted, and the failure log
    stays empty. *)
Example run_finds_BBB :
  run net_key_for_BBB failed_in_cwd "report.txt"
      (initial {["report.txt" := ["a.txt,AAA"; "b.txt,BBB"; "c.txt,CCC"]]})
  = (Exited 0,
     mkState {["report.txt" := ["a.txt,AAA"; "b.txt,BBB"; "c.txt,CCC"]]}
             (Some "failed.txt")
             ["AAA"; "AAA"; "BBB"; "BBB"] [] 1
             ([LogReading "report.txt"; LogFailedTo "failed.txt"; LogFound 3;
               LogStarting; Progress 1 3]
              ++ match_report "BBB" (JObj [("key", JStr "X")]))
             1 true).
Proof. vm_compute. reflexivity. Qed.

(** The same report with the service down: one request and one line in
    the failure log per checksum, then the report of exhaustion. *)
Example run_with_service_down :
  run net_down failed_in_cwd "report.txt"
      (initial {["report.txt" := ["a.txt,AAA"; "b.txt,BBB"; "c.txt,CCC"]]})
  = (Exited 0,
     mkState {["report.txt" := ["a.txt,AAA"; "b.txt,BBB"; "c.txt,CCC"]]}
             (Some "failed.txt")
             ["AAA"; "BBB"; "CCC"]
             ["AAA" +:+ newline; "BBB" +:+ newline; "CCC" +:+ newline] 1
             ([LogReading "report.txt"; LogFailedTo "failed.txt"; LogFound 3;
               LogStarting;
               ErrNetwork "AAA"; Progress 1 3;
               ErrNetwork "BBB"; Progress 2 3;
               ErrNetwork "CCC"; Progress 3 3]
              ++ exhausted_report)
             3 false).
Proof. vm_compute. reflexivity. Qed.

(** * Further properties *)

(** ** The tokens of the checksum source *)

Lemma white_space_not_comma (c : ascii) :
  is_white_space c = true -> Ascii.eqb c comma = false.
Proof.
  intros H. destruct (Ascii.eqb_spec c comma) as [-> |]; [| reflexivity].
  vm_compute in H. discriminate.
Qed.

Lemma trimEnd_keeps_head (c : ascii) (rest : string) :
  is_white_space c = false -> trimEnd (String c rest) = String c (trimEnd rest).
Proof.
  intros H. simpl. rewrite H. now destruct (trimEnd rest).
Qed.

Lemma trimEnd_idempotent (s : string) : trimEnd (trimEnd s) = trimEnd s.
Proof.
  induction s as [| c rest IH]; auto.
  simpl. destruct (trimEnd rest) as [| d t] eqn:E.
  - destruct (is_white_space c) eqn:W; auto.
    simpl. now rewrite W.
  - simpl in IH. simpl. destruct (trimEnd t) as [| d' t'] eqn:E'.
    + destruct (is_white_space d); [discriminate | now rewrite IH].
    + now rewrite IH.
Qed.

Lemma trimStart_head (s : string) :
  trimStart s = "" \/
  exists c rest, trimStart s = String c rest /\ is_white_space c = false.
Proof.
  induction s as [| c rest IH]; auto.
  simpl. destruct (is_white_space c) eqn:W; auto.
  right. eauto.
Qed.

Lemma trim_idempotent (s : string) : trim (trim s) = trim s.
Proof.
  unfold trim. destruct (trimStart_head s) as [-> | (c & rest & -> & W)]; auto.
  rewrite (trimEnd_keeps_head _ _ W). simpl trimStart. rewrite W.
  rewrite <- (trimEnd_keeps_head _ _ W). apply trimEnd_idempotent.
Qed.

Lemma count_commas_trimStart (s : string) :
  count_commas (trimStart s) = count_commas s.
Proof.
  induction s as [| c rest IH]; auto.
  simpl. destruct (is_white_space c) eqn:W; auto.
  now rewrite (white_space_not_comma _ W).
Qed.

Lemma count_commas_trimEnd (s : string) :
  count_commas (trimEnd s) <= count_commas s.
Proof.
  induction s as [| c rest IH]; auto.
  simpl. destruct (trimEnd rest) as [| d t] eqn:E.
  - destruct (is_white_space c) eqn:W; simpl; lia.
  - simpl in *. lia.
Qed.

Lemma split_comma_parts (s : string) :
  Forall (fun p => count_commas p = 0) (split_comma s).
Proof.
  induction s as [| c rest IH]; simpl.
  - repeat constructor.
  - destruct (Ascii.eqb c comma) eqn:E.
    + constructor; auto.
    + destruct (split_comma rest) as [| p ps]; [repeat constructor; simpl; now rewrite E |].
      apply Forall_cons in IH as [Hp Hps].
      constructor; auto. simpl. now rewrite E, Hp.
Qed.

Lemma on_line_token (line t : string) :
  In t (on_line line) ->
  exists p, In p (split_comma line) /\ p <> "" /\ t = trim p.
Proof.
  unfold on_line.
  destruct (Nat.eqb (length (split_comma line)) 2) eqn:L; simpl; [| tauto].
  destruct (split_comma line) as [| p0 [| p1 [| p2 ps]]]; try discriminate.
  simpl. destruct (String.eqb_spec p1 ""); simpl; [tauto |].
  intros [<- | []]. exists p1. auto.
Qed.

(** X1.  Every token of the source is free of commas and of leading and
    trailing whitespace, and the source yields at most one token per
    line. *)
Theorem tokens_are_trimmed_fields (lines : list string) :
  Forall (fun t => count_commas t = 0 /\ trim t = t) (parse_lines lines)
  /\ length (parse_lines lines) <= length lines.
Proof.
  split.
  - apply List.Forall_forall. intros t Ht.
    apply in_flat_map in Ht as (line & _ & Ht).
    apply on_line_token in Ht as (p & Hp & _ & ->).
    split; [| apply trim_idempotent].
    pose proof (split_comma_parts line) as Hparts.
    rewrite List.Forall_forall in Hparts. specialize (Hparts p Hp).
    unfold trim.
    pose proof (count_commas_trimEnd (trimStart p)) as H.
    rewrite count_commas_trimStart in H. lia.
  - unfold parse_lines. induction lines as [| line rest IH]; simpl; auto.
    rewrite length_app.
    assert (length (on_line line) <= 1).
    { unfold on_line. destruct (_ && _); simpl; lia. }
    lia.
Qed.

(** X2.  Round trip: a report written one record per line, [path,token],
    with comma-free paths and non-empty, comma-free, trimmed tokens, is
    read back as the list of its tokens, in order and with duplicates. *)
Theorem report_round_trip (records : list (string * string)) :
  Forall (fun r => count_commas (fst r) = 0 /\ count_commas (snd r) = 0
                   /\ snd r <> "" /\ trim (snd r) = snd r) records ->
  parse_lines (map report_line records) = map snd records.
Proof.
  induction 1 as [| [path token] rest (Hp & Ht & Hne & Htrim) _ IH]; auto.
  simpl in *. unfold parse_lines in *. simpl. rewrite IH.
  unfold report_line. simpl.
  rewrite (on_line_two_parts _ _ Hp Ht).
  destruct (String.eqb_spec token ""); [contradiction |].
  now rewrite Htrim.
Qed.

Lemma report_round_trip_witness :
  parse_lines ["a.txt,AAA"; "dir/b.txt,BBB"; ",AAA"] = ["AAA"; "BBB"; "AAA"].
Proof.
  apply (report_round_trip [("a.txt", "AAA"); ("dir/b.txt", "BBB"); ("", "AAA")]).
  repeat constructor; discriminate.
Defined.

(** X3.  The first column is ignored: two lines that differ only in their
    comma-free first part yield the same tokens. *)
Theorem first_column_is_ignored (p0 q0 rest : string) :
  count_commas p0 = 0 -> count_commas q0 = 0 ->
  on_line (p0 +:+ String comma rest) = on_line (q0 +:+ String comma rest).
Proof.
  intros Hp Hq. unfold on_line.
  rewrite (split_comma_append _ _ Hp), (split_comma_append _ _ Hq).
  reflexivity.
Qed.

Lemma first_column_is_ignored_witness :
  on_line "a.txt, AAA" = on_line "some/other path, AAA".
Proof.
  exact (first_column_is_ignored "a.txt" "some/other path" " AAA" eq_refl eq_refl).
Defined.

Lemma one_comma_two_parts (line : string) :
  count_commas line = 1 ->
  exists p0 p1, line = p0 +:+ "," +:+ p1
                /\ count_commas p0 = 0 /\ count_commas p1 = 0.
Proof.
  induction line as [| c rest IH]; simpl; [discriminate |].
  destruct (Ascii.eqb_spec c comma) as [-> | Hc]; simpl.
  - intros H. exists "", rest. repeat split; auto; lia.
  - intros H. destruct (IH H) as (p0 & p1 & -> & H0 & H1).
    exists (String c p0), p1. repeat split; auto.
    simpl. destruct (Ascii.eqb_spec c comma); [contradiction | auto].
Qed.

Lemma trimEnd_empty (s : string) :
  trimEnd s = "" <-> all_white_space s = true.
Proof.
  induction s as [| c rest IH]; simpl; [tauto |].
  destruct (trimEnd rest) as [| d t].
  - destruct (is_white_space c); simpl.
    + destruct IH as [IH _]. split; auto.
    + split; discriminate.
  - split; [discriminate |].
    intros H. apply andb_prop in H as [_ H].
    apply IH in H. discriminate.
Qed.

Lemma trim_empty_iff (s : string) :
  trim s = "" <-> all_white_space s = true.
Proof.
  unfold trim. rewrite trimEnd_empty.
  induction s as [| c rest IH]; simpl; [tauto |].
  destruct (is_white_space c) eqn:W; simpl; auto.
  rewrite W. simpl. tauto.
Qed.

(** X4.  The source yields the empty token for exactly the lines with one
    comma whose second part is non-empty and made of whitespace only: the
    second part is tested before it is trimmed. *)
Theorem empty_token_lines (line : string) :
  on_line line = [""] <->
  exists p0 p1, line = p0 +:+ "," +:+ p1
                /\ count_commas p0 = 0 /\ count_commas p1 = 0
                /\ p1 <> "" /\ all_white_space p1 = true.
Proof.
  split.
  - intros H.
    assert (Hc : count_commas line = 1).
    { destruct (Nat.eq_dec (count_commas line) 1) as [| Hn]; auto.
      rewrite (on_line_other _ Hn) in H. discriminate. }
    destruct (one_comma_two_parts _ Hc) as (p0 & p1 & -> & H0 & H1).
    exists p0, p1. rewrite (on_line_two_parts _ _ H0 H1) in H.
    destruct (String.eqb_spec p1 ""); [discriminate |].
    injection H as H. apply trim_empty_iff in H. auto.
  - intros (p0 & p1 & -> & H0 & H1 & Hne & Hw).
    rewrite (on_line_two_parts _ _ H0 H1).
    destruct (String.eqb_spec p1 ""); [contradiction |].
    apply trim_empty_iff in Hw. now rewrite Hw.
Qed.

(** X5.  The tokens cannot be read back as a report: a file that holds one
    token per line, as the failure log does, yields no token at all. *)
Theorem tokens_do_not_parse (lines : list string) :
  parse_lines (parse_lines lines) = [].
Proof.
  pose proof (split_comma_parts) as Hparts.
  assert (H : Forall (fun t => on_line t = []) (parse_lines lines)).
  { apply List.Forall_forall. intros t Ht.
    apply in_flat_map in Ht as (line & _ & Ht).
    apply on_line_token in Ht as (p & Hp & _ & ->).
    apply on_line_other.
    specialize (Hparts line). rewrite List.Forall_forall in Hparts.
    specialize (Hparts p Hp). unfold trim.
    pose proof (count_commas_trimEnd (trimStart p)) as H.
    rewrite count_commas_trimStart in H. lia. }
  unfold parse_lines at 1.
  induction H as [| t rest Ht _ IH]; simpl; auto.
  now rewrite Ht.
Qed.


(** ** The responses *)

Lemma SFeqb_sym (x y : spec_float) : SFeqb x y = SFeqb y x.
Proof.
  unfold SFeqb, SFcompare.
  destruct x as [sx | sx | | sx mx ex], y as [sy | sy | | sy my ey];
    try reflexivity;
    try (destruct sx; reflexivity); try (destruct sy; reflexivity);
    try (destruct sx, sy; reflexivity).
  rewrite (Z.compare_antisym ey ex).
  change (Pos.compare_cont Eq mx my) with (Pos.compare mx my).
  change (Pos.compare_cont Eq my mx) with (Pos.compare my mx).
  rewrite (Pos.compare_antisym my mx).
  destruct sx, sy; try reflexivity;
    destruct (Z.compare ey ex); simpl; try reflexivity;
    destruct (Pos.compare my mx); reflexivity.
Qed.

Lemma strict_equals_sym (a b : jsval) : strict_equals a b = strict_equals b a.
Proof.
  destruct a, b; simpl; try reflexivity.
  - now destruct b, b0.
  - apply SFeqb_sym.
  - apply String.eqb_sym.
Qed.

Lemma get_key_defined (r k : jsval) :
  get_key r = inr k -> to_boolean k = true ->
  exists props, r = JObj props /\ own_property "key" props = Some k.
Proof.
  destruct r; simpl; intros H Hk; try discriminate;
    try (injection H as <-; discriminate).
  injection H as <-. exists props. split; auto.
  destruct (own_property "key" props); auto. discriminate.
Qed.

(** X6.  A match can only come from two JSON objects that each have a
    [key] member of their own; a body that is an array, a string, a number
    or a boolean never matches.  The decision does not depend on the order
    of the two responses. *)
Theorem match_needs_two_objects (r1 r2 : jsval) :
  (decide_match r1 r2 = inr Match ->
   exists props1 props2 k1 k2,
     r1 = JObj props1 /\ r2 = JObj props2
     /\ own_property "key" props1 = Some k1
     /\ own_property "key" props2 = Some k2)
  /\ (decide_match r1 r2 = inr Match <-> decide_match r2 r1 = inr Match).
Proof.
  split.
  - intros H. apply decide_match_Match in H as (_ & _ & k1 & k2 & E1 & E2 & Hk).
    apply truthy_equal_keys in Hk as (T1 & T2 & _).
    destruct (get_key_defined _ _ E1 T1) as (props1 & -> & P1).
    destruct (get_key_defined _ _ E2 T2) as (props2 & -> & P2).
    exists props1, props2, k1, k2. auto.
  - rewrite !decide_match_Match. split.
    + intros (T1 & T2 & k1 & k2 & E1 & E2 & Hk).
      repeat split; auto. exists k2, k1. repeat split; auto.
      apply truthy_equal_keys. apply truthy_equal_keys in Hk as (? & ? & ?).
      rewrite strict_equals_sym. auto.
    + intros (T1 & T2 & k1 & k2 & E1 & E2 & Hk).
      repeat split; auto. exists k2, k1. repeat split; auto.
      apply truthy_equal_keys. apply truthy_equal_keys in Hk as (? & ? & ?).
      rewrite strict_equals_sym. auto.
Qed.

Lemma match_needs_two_objects_witness :
  exists props1 props2 k1 k2,
    JObj [("key", JStr "X"); ("n", JNum (S754_zero false))] = JObj props1
    /\ JObj [("key", JStr "X")] = JObj props2
    /\ own_property "key" props1 = Some k1
    /\ own_property "key" props2 = Some k2.
Proof.
  destruct (match_needs_two_objects
              (JObj [("key", JStr "X"); ("n", JNum (S754_zero false))])
              (JObj [("key", JStr "X")])) as [H _].
  exact (H eq_refl).
Defined.

Section FurtherLoopProperties.

Variable net : nat -> string -> fetch_result.

(** X7.  A response with a success status whose body is falsy JSON
    ([null], [false], [0], the empty string) is handled as a failed
    lookup: the checksum goes to the failure log and no second request is
    made; unlike for a transport or server failure, no diagnostic is
    printed, only the progress line. *)
Theorem falsy_body_is_a_silent_failure
        (total status : nat) (body : jsval) (c : string) (st : state) :
  matchFound st = false ->
  net (length (requests st)) c = Response status (Some body) ->
  response_ok status = true ->
  to_boolean body = false ->
  loop_body net total c st =
  (Normal Continue,
   mkState (files st) (stream st) (requests st ++ [c])
           (written st ++ [c +:+ newline]) (ended st)
           (console st ++ [Progress (S (processedCount st)) total])
           (S (processedCount st)) false).
Proof.
  intros Hm Hnet Hok Hbody.
  assert (Hv : response_at net (length (requests st)) c = body).
  { unfold response_at. rewrite Hnet. simpl. now rewrite Hok. }
  assert (Hf : failed (response_at net (length (requests st)) c) = true).
  { unfold failed. now rewrite Hv, Hbody. }
  rewrite (loop_body_first_failed net total c st Hm Hf).
  unfold continued. rewrite Hnet. simpl. now rewrite Hok.
Qed.

Lemma progress_counts_app (a b : list output) :
  progress_counts (a ++ b) = progress_counts a ++ progress_counts b.
Proof.
  induction a as [| o a IH]; auto.
  destruct o; simpl; auto. now rewrite IH.
Qed.

Lemma progress_counts_diagnostics (diag : list output) :
  Forall (fun o => exists s k, o = ErrNetwork k \/ o = ErrNonOk s k) diag ->
  progress_counts diag = [].
Proof.
  induction 1 as [| o rest (s & k & [-> | ->]) _ IH]; auto.
Qed.

(** An iteration either goes on, after one or two requests and at most
    one line in the failure log, or exits on a match. *)
Lemma loop_body_step (total : nat) (c : string) (st : state) :
  matchFound st = false ->
  (exists k log diag,
      loop_body net total c st = (Normal Continue, continued st c k log diag total)
      /\ (k = 1 \/ k = 2)
      /\ (log = [] \/ log = [c +:+ newline])
      /\ progress_counts diag = []
      /\ decision_at net (length (requests st)) c <> inr Match)
  \/ (loop_body net total c st
      = (Exited 0, matched st c (response_at net (length (requests st)) c))
      /\ decision_at net (length (requests st)) c = inr Match).
Proof.
  intros Hm.
  destruct (decide_match_total (response_at net (length (requests st)) c)
                               (response_at net (S (length (requests st))) c))
    as [d Hd].
  fold (decision_at net (length (requests st)) c) in Hd.
  assert (Hcases : d <> Match \/ d = Match) by (destruct d; auto; left; discriminate).
  destruct Hcases as [Hn | ->].
  - left.
    assert (Hn' : decision_at net (length (requests st)) c <> inr Match) by congruence.
    destruct (loop_body_continue net total c st Hm Hn') as (diag & E & Hdiag).
    eexists _, _, diag. split; [exact E |].
    repeat split; auto.
    + unfold attempts_at. destruct (failed _); auto.
    + destruct (_ || _); auto.
    + now apply progress_counts_diagnostics.
  - right. split; auto. now apply loop_body_match.
Qed.

(** What a pass adds to the requests, to the failure log and to the
    console, and how far it counts. *)
Lemma for_of_effects (total : nat) (cs : list string) :
  forall st,
    matchFound st = false ->
    exists reqs logs outs,
      requests (snd (for_of (loop_body net total) cs st)) = requests st ++ reqs
      /\ written (snd (for_of (loop_body net total) cs st)) = written st ++ logs
      /\ console (snd (for_of (loop_body net total) cs st)) = console st ++ outs
      /\ Forall (fun c => In c cs) reqs
      /\ Forall (fun l => exists c, In c cs /\ l = c +:+ newline) logs
      /\ progress_counts outs
         = map (fun i => (i, total))
               (seq (S (processedCount st))
                    (processedCount (snd (for_of (loop_body net total) cs st))
                     - processedCount st))
      /\ processedCount st
         <= processedCount (snd (for_of (loop_body net total) cs st))
      /\ processedCount (snd (for_of (loop_body net total) cs st))
         <= processedCount st + length cs
      /\ length logs
         <= processedCount (snd (for_of (loop_body net total) cs st))
            - processedCount st
      /\ length reqs <= 2 * length cs
      /\ processedCount (snd (for_of (loop_body net total) cs st))
         - processedCount st <= length reqs.
Proof.
  induction cs as [| c rest IH]; intros st Hm.
  - exists [], [], []. simpl. rewrite !app_nil_r, Nat.sub_diag.
    repeat split; auto; lia.
  - rewrite for_of_cons.
    destruct (loop_body_step total c st Hm)
      as [(k & log & diag & E & Hk & Hlog & Hdiag & _) | [E _]]; rewrite E.
    + set (st1 := continued st c k log diag total).
      destruct (IH st1 eq_refl)
        as (reqs & logs & outs & Hr & Hw & Hc & Hin & Hlin & Hp
            & Hle1 & Hle2 & Hll & Hlr & Hpr).
      set (st' := snd (for_of (loop_body net total) rest st1)) in *.
      change (processedCount st1) with (S (processedCount st)) in *.
      exists (repeat c k ++ reqs), (log ++ logs),
        (diag ++ [Progress (S (processedCount st)) total] ++ outs).
      rewrite Hr, Hw, Hc. simpl.
      repeat split.
      * now rewrite <- app_assoc.
      * now rewrite <- app_assoc.
      * now rewrite <- !app_assoc.
      * apply Forall_app. split.
        -- apply List.Forall_forall. intros x Hx.
           apply repeat_spec in Hx. subst x. now left.
        -- eapply Forall_impl; [exact Hin |]. intros x Hx. now right.
      * apply Forall_app. split.
        -- destruct Hlog as [-> | ->]; [constructor |].
           constructor; [| constructor]. exists c. split; auto; now left.
        -- eapply Forall_impl; [exact Hlin |].
           intros x (c' & Hc' & ->). exists c'. split; auto; now right.
      * rewrite progress_counts_app, Hdiag. simpl. rewrite Hp.
        replace (processedCount st' - processedCount st)
          with (S (processedCount st' - S (processedCount st))) by lia.
        reflexivity.
      * lia.
      * lia.
      * rewrite length_app.
        assert (length log <= 1) by (destruct Hlog as [-> | ->]; simpl; lia).
        lia.
      * rewrite length_app, repeat_length. destruct Hk; subst k; lia.
      * rewrite length_app, repeat_length. destruct Hk; subst k; lia.
    + exists [c; c], [], (match_report c (response_at net (length (requests st)) c)).
      simpl. rewrite app_nil_r, Nat.sub_diag.
      repeat split; auto; try lia; repeat constructor.
Qed.

Lemma verification_loop_fields (cs : list string) (total : nat) (st : state) :
  requests (snd (verification_loop net cs total st))
  = requests (snd (for_of (loop_body net total) cs (started st)))
  /\ written (snd (verification_loop net cs total st))
     = written (snd (for_of (loop_body net total) cs (started st)))
  /\ processedCount (snd (verification_loop net cs total st))
     = processedCount (snd (for_of (loop_body net total) cs (started st)))
  /\ progress_counts (console (snd (verification_loop net cs total st)))
     = progress_counts (console (snd (for_of (loop_body net total) cs (started st)))).
Proof.
  rewrite verification_loop_run.
  destruct (for_of (loop_body net total) cs (started st)) as [[[] | code | e] s1];
    simpl; auto.
  destruct (matchFound s1); simpl; auto.
  repeat split. rewrite progress_counts_app. simpl. now rewrite app_nil_r.
Qed.

(** X8.  A pass stays within its list: every request carries a checksum
    of the list and every line of the failure log is a checksum of the
    list followed by a newline; a pass issues at most two requests per
    checksum and at least one per processed checksum, and never logs more
    lines than it has processed checksums. *)
Theorem pass_stays_within_the_list (cs : list string) (total : nat) (st : state) :
  exists reqs logs,
    requests (snd (verification_loop net cs total st)) = requests st ++ reqs
    /\ written (snd (verification_loop net cs total st)) = written st ++ logs
    /\ Forall (fun c => In c cs) reqs
    /\ Forall (fun l => exists c, In c cs /\ l = c +:+ newline) logs
    /\ length logs <= processedCount (snd (verification_loop net cs total st))
    /\ processedCount (snd (verification_loop net cs total st)) <= length cs
    /\ processedCount (snd (verification_loop net cs total st)) <= length reqs
    /\ length reqs <= 2 * length cs.
Proof.
  destruct (verification_loop_fields cs total st) as (-> & -> & -> & _).
  destruct (for_of_effects total cs (started st) eq_refl)
    as (reqs & logs & outs & Hr & Hw & _ & Hin & Hlin & _
        & _ & Hle & Hll & Hlr & Hpr).
  exists reqs, logs. simpl in *.
  repeat split; auto; lia.
Qed.

(** X9.  The progress lines of a pass count 1, 2, 3, ... without gap or
    repetition, each against the same total, up to the number of
    processed checksums, which never exceeds the length of the list. *)
Theorem progress_counts_up_by_one (cs : list string) (total : nat) (st : state) :
  progress_counts (console (snd (verification_loop net cs total st)))
  = progress_counts (console st)
    ++ map (fun i => (i, total))
           (seq 1 (processedCount (snd (verification_loop net cs total st))))
  /\ processedCount (snd (verification_loop net cs total st)) <= length cs.
Proof.
  destruct (verification_loop_fields cs total st) as (_ & _ & -> & ->).
  destruct (for_of_effects total cs (started st) eq_refl)
    as (reqs & logs & outs & _ & _ & Hc & _ & _ & Hp & _ & Hle & _).
  simpl in *. split; [| lia].
  rewrite Hc, progress_counts_app, Hp. now rewrite Nat.sub_0_r.
Qed.

Lemma for_of_all_failing (total : nat) (cs : list string) :
  (forall n c, In c cs -> failed (response_at net n c) = true) ->
  forall st,
    matchFound st = false ->
    exists st',
      for_of (loop_body net total) cs st = (Normal tt, st')
      /\ matchFound st' = false
      /\ requests st' = requests st ++ cs
      /\ written st' = written st ++ map (fun c => c +:+ newline) cs
      /\ processedCount st' = processedCount st + length cs
      /\ ended st' = ended st.
Proof.
  induction cs as [| c rest IH]; intros Hall st Hm.
  - exists st. simpl. rewrite !app_nil_r, Nat.add_0_r, ret_run.
    repeat split; auto.
  - assert (Hf : failed (response_at net (length (requests st)) c) = true)
      by (apply Hall; now left).
    rewrite for_of_cons, (loop_body_first_failed net total c st Hm Hf).
    set (st1 := continued _ _ _ _ _ _).
    destruct (IH (fun n x Hx => Hall n x (or_intror Hx)) st1 eq_refl)
      as (st' & E & Hm' & Hr & Hw & Hp & He).
    exists st'. rewrite E, Hr, Hw, Hp, He. simpl.
    rewrite <- !app_assoc. repeat split; auto; lia.
Qed.

(** X10.  When every lookup for the checksums of the list fails, the pass
    issues exactly one request per checksum, in order, logs every
    checksum exactly once, in order, counts them all and ends with the
    report of exhaustion. *)
Theorem pass_with_every_lookup_failing (cs : list string) (total : nat) (st : state) :
  (forall n c, In c cs -> failed (response_at net n c) = true) ->
  exists st',
    verification_loop net cs total st = (Exited 0, st')
    /\ requests st' = requests st ++ cs
    /\ written st' = written st ++ map (fun c => c +:+ newline) cs
    /\ processedCount st' = length cs
    /\ ended st' = S (ended st).
Proof.
  intros Hall.
  destruct (for_of_all_failing total cs Hall (started st) eq_refl)
    as (st' & E & Hm & Hr & Hw & Hp & He).
  exists (exhausted st').
  rewrite verification_loop_run, E, Hm. simpl.
  rewrite Hr, Hw, Hp, He. auto.
Qed.

Lemma for_of_outcome (total : nat) (cs : list string) :
  forall st,
    matchFound st = false ->
    (exists st',
        for_of (loop_body net total) cs st = (Normal tt, st')
        /\ Forall (fun d => d <> inr Match) (decisions net (length (requests st)) cs))
    \/ (exists pre t post st1,
           cs = pre ++ t :: post
           /\ for_of (loop_body net total) pre st = (Normal tt, st1)
           /\ Forall (fun d => d <> inr Match)
                     (decisions net (length (requests st)) pre)
           /\ decision_at net (length (requests st1)) t = inr Match
           /\ for_of (loop_body net total) cs st
              = (Exited 0, matched st1 t (response_at net (length (requests st1)) t))).
Proof.
  induction cs as [| c rest IH]; intros st Hm.
  - left. exists st. split; [reflexivity | constructor].
  - destruct (loop_body_step total c st Hm)
      as [(k & log & diag & E & Hk & Hlog & Hdiag & Hn) | [E Hd]].
    + assert (Ek : k = attempts_at net (length (requests st)) c).
      { destruct (loop_body_continue net total c st Hm Hn) as (diag' & E' & _).
        rewrite E in E'. injection E' as E'.
        apply (f_equal (fun l => length l)) in E'.
        rewrite !length_app, !repeat_length in E'. lia. }
      set (st1 := continued st c k log diag total) in *.
      assert (Hlen : length (requests st1)
                     = length (requests st) + attempts_at net (length (requests st)) c).
      { unfold st1. rewrite continued_length_requests. now rewrite Ek. }
      destruct (IH st1 eq_refl)
        as [(st' & Erun & Hall)
           | (pre & t & post & s1 & -> & Epre & Hall & Hd & Erun)].
      * left. exists st'. rewrite for_of_cons, E. split; auto.
        simpl. constructor; auto. now rewrite <- Hlen.
      * right. exists (c :: pre), t, post, s1.
        rewrite !for_of_cons, E. repeat split; auto.
        simpl. constructor; auto. now rewrite <- Hlen.
    + right. exists [], c, rest, st. rewrite for_of_cons, E.
      repeat split; auto; constructor.
Qed.

(** X11.  The first match wins.  A pass always ends by [process.exit(0)],
    in one of two ways: no checksum of the list gives a match, every
    checksum is counted and the report of exhaustion is printed; or the
    pass stops at the first checksum whose two responses match, reports
    it, and has counted exactly the checksums before it. *)
Theorem first_match_wins (cs : list string) (total : nat) (st : state) :
  exists st',
    verification_loop net cs total st = (Exited 0, st')
    /\ ((Forall (fun d => d <> inr Match) (decisions net (length (requests st)) cs)
         /\ processedCount st' = length cs
         /\ exists outs, console st' = console st ++ outs ++ exhausted_report)
        \/ (exists pre t post st1,
               cs = pre ++ t :: post
               /\ Forall (fun d => d <> inr Match)
                         (decisions net (length (requests st)) pre)
               /\ for_of (loop_body net total) pre (started st) = (Normal tt, st1)
               /\ decision_at net (length (requests st1)) t = inr Match
               /\ st' = matched st1 t (response_at net (length (requests st1)) t)
               /\ processedCount st' = length pre)).
Proof.
  destruct (for_of_outcome total cs (started st) eq_refl)
    as [(s1 & Erun & Hall)
       | (pre & t & post & s1 & -> & Epre & Hall & Hd & Erun)].
  - destruct (for_of_no_match net total cs (started st) eq_refl Hall)
      as (s1' & outs & Erun' & Hm & Hp & _ & _ & _ & Hc & _).
    rewrite Erun in Erun'. injection Erun' as <-.
    exists (exhausted s1). rewrite verification_loop_run, Erun, Hm. simpl.
    split; auto. left. repeat split; auto.
    exists outs. rewrite Hc. simpl. now rewrite <- app_assoc.
  - destruct (for_of_no_match net total pre (started st) eq_refl Hall)
      as (s1' & outs & Epre' & _ & Hp & _).
    rewrite Epre in Epre'. injection Epre' as <-.
    eexists. rewrite verification_loop_run, Erun. split; [reflexivity |].
    right. exists pre, t, post, s1. repeat split; auto.
Qed.

End FurtherLoopProperties.

Lemma falsy_body_is_a_silent_failure_witness :
  loop_body (net_answers (JBool false) JNull) 1 "AAA" (initial ∅) =
  (Normal Continue,
   mkState ∅ None ["AAA"] ["AAA" +:+ newline] 0 [Progress 1 1] 1 false).
Proof.
  exact (falsy_body_is_a_silent_failure (net_answers (JBool false) JNull)
           1 200 (JBool false) "AAA" (initial ∅)
           eq_refl eq_refl eq_refl eq_refl).
Defined.

Lemma pass_with_every_lookup_failing_witness :
  exists st',
    verification_loop net_down ["AAA"; "BBB"; "AAA"] 3 (initial ∅) = (Exited 0, st')
    /\ requests st' = ["AAA"; "BBB"; "AAA"]
    /\ written st' = ["AAA" +:+ newline; "BBB" +:+ newline; "AAA" +:+ newline]
    /\ processedCount st' = 3
    /\ ended st' = 1.
Proof.
  apply (pass_with_every_lookup_failing net_down ["AAA"; "BBB"; "AAA"] 3 (initial ∅)).
  intros n c _. reflexivity.
Defined.

(** ** Whole runs *)

Section RunProperties.

Variable net : nat -> string -> fetch_result.
Variable failed_path : string -> string.

Lemma truthy_lookup (r : fetch_result) :
  to_boolean (lookup_value r) = true ->
  exists status body,
    r = Response status (Some body) /\ response_ok status = true
    /\ lookup_value r = body.
Proof.
  destruct r as [| status [body |]]; simpl; try discriminate.
  - destruct (response_ok status) eqn:Hok; try discriminate.
    intros _. exists status, body. auto.
  - destruct (response_ok status); discriminate.
Qed.

(** X12.  A match is reported only on two answers with a success status
    and a body that parses: a transport error, a status outside 200-299
    or an unreadable body on either request rules the match out, whatever
    the bodies hold. *)
Theorem match_needs_two_successful_lookups (n : nat) (c : string) :
  decision_at net n c = inr Match ->
  exists status1 body1 status2 body2,
    net n c = Response status1 (Some body1) /\ response_ok status1 = true
    /\ net (S n) c = Response status2 (Some body2) /\ response_ok status2 = true
    /\ decide_match body1 body2 = inr Match.
Proof.
  intros H. pose proof H as H'.
  unfold decision_at in H'. apply decide_match_Match in H' as (T1 & T2 & _).
  unfold response_at in T1, T2.
  destruct (truthy_lookup _ T1) as (s1 & b1 & E1 & O1 & V1).
  destruct (truthy_lookup _ T2) as (s2 & b2 & E2 & O2 & V2).
  exists s1, b1, s2, b2. repeat split; auto.
  unfold decision_at, response_at in H. now rewrite V1, V2 in H.
Qed.

Lemma run_state (reportPath : string) (fs : gmap string (list string)) :
  let st' := snd (run net failed_path reportPath (initial fs)) in
  (requests st' = [] /\ written st' = [] /\ progress_counts (console st') = []
   /\ processedCount st' = 0)
  \/ (exists lines opened,
         fs !! reportPath = Some lines
         /\ progress_counts (console opened) = []
         /\ requests opened = [] /\ written opened = []
         /\ st' = snd (verification_loop net (parse_lines lines)
                                         (length (parse_lines lines)) opened)).
Proof.
  unfold run, catch. rewrite main_run.
  destruct (fs !! reportPath) as [lines |] eqn:E; [| left; simpl; auto].
  destruct (parse_lines lines) as [| c cs] eqn:P; [left; simpl; auto |].
  right. exists lines.
  exists (mkState fs (Some (failed_path reportPath)) [] [] 0
                  ([LogReading reportPath; LogFailedTo (failed_path reportPath)]
                   ++ [LogFound (length (c :: cs)); LogStarting]) 0 false).
  split; [reflexivity |].
  cbv zeta. rewrite P.
  match goal with
  | |- context [verification_loop net ?l ?n ?s] =>
      destruct (verification_loop_exits net l n s) as (st' & Ev & _)
  end.
  rewrite Ev. repeat split; reflexivity.
Qed.

(** X13.  Whatever the report and the service, every request of a run
    carries a token of the report, that is the token of one of its lines;
    a run issues at most two requests per line of the report. *)
Theorem run_submits_only_report_tokens
        (reportPath : string) (fs : gmap string (list string)) :
  Forall (fun c => exists lines line,
              fs !! reportPath = Some lines /\ In line lines /\ In c (on_line line))
         (requests (snd (run net failed_path reportPath (initial fs))))
  /\ length (requests (snd (run net failed_path reportPath (initial fs))))
     <= 2 * length (default [] (fs !! reportPath)).
Proof.
  destruct (run_state reportPath fs)
    as [(-> & _) | (lines & opened & Hfs & _ & Hr & _ & ->)].
  - split; [constructor | simpl; lia].
  - rewrite Hfs. simpl.
    destruct (verification_loop_fields net (parse_lines lines)
                (length (parse_lines lines)) opened) as (-> & _).
    destruct (for_of_effects net (length (parse_lines lines)) (parse_lines lines)
                (started opened) eq_refl)
      as (reqs & _ & _ & -> & _ & _ & Hin & _ & _ & _ & _ & _ & Hlr & _).
    simpl. rewrite Hr. simpl. split.
    + eapply Forall_impl; [exact Hin |].
      intros c Hc. apply in_flat_map in Hc as (line & Hl & Hc).
      exists lines, line. auto.
    + assert (Hlen : length (parse_lines lines) <= length lines).
      { unfold parse_lines. clear. induction lines as [| l rest IH]; simpl; auto.
        rewrite length_app.
        assert (length (on_line l) <= 1)
          by (unfold on_line; destruct (_ && _); simpl; lia).
        lia. }
      lia.
Qed.

(** X14.  The progress lines of a run read 1/N, 2/N, ..., k/N, where N is
    the number of tokens of the report and k <= N: the count shown is
    never zero, never above the total, and the total is never zero. *)
Theorem run_progress_within_total
        (reportPath : string) (fs : gmap string (list string)) :
  exists k,
    progress_counts (console (snd (run net failed_path reportPath (initial fs))))
    = map (fun i => (i, length (parse_lines (default [] (fs !! reportPath)))))
          (seq 1 k)
    /\ k <= length (parse_lines (default [] (fs !! reportPath)))
    /\ k = processedCount (snd (run net failed_path reportPath (initial fs))).
Proof.
  destruct (run_state reportPath fs)
    as [(_ & _ & -> & ->) | (lines & opened & Hfs & Hc & _ & _ & ->)].
  - exists 0. simpl. repeat split; auto; lia.
  - rewrite Hfs. simpl.
    destruct (verification_loop_fields net (parse_lines lines)
                (length (parse_lines lines)) opened) as (_ & _ & -> & ->).
    destruct (for_of_effects net (length (parse_lines lines)) (parse_lines lines)
                (started opened) eq_refl)
      as (_ & _ & outs & _ & _ & Hco & _ & _ & Hp & _ & Hle & _).
    simpl in *. eexists. split; [| split; [| reflexivity]]; [| lia].
    rewrite Hco, progress_counts_app, Hc, Hp. simpl.
    now rewrite Nat.sub_0_r.
Qed.

End RunProperties.

Lemma match_needs_two_successful_lookups_witness :
  exists status1 body1 status2 body2,
    net_key_for_BBB 0 "BBB" = Response status1 (Some body1)
    /\ response_ok status1 = true
    /\ net_key_for_BBB 1 "BBB" = Response status2 (Some body2)
    /\ response_ok status2 = true
    /\ decide_match body1 body2 = inr Match.
Proof.
  exact (match_needs_two_successful_lookups net_key_for_BBB 0 "BBB" eq_refl).
Defined.
